(** * Sellers ads metrics: URL classifier, mapping confidence, ad analyzer

    A shallow embedding of
    - [src/classification/url_classifier.py] (class [URLClassifier]),
    - [src/discovery/site_mapper.py] ([SiteMapper.map_client_sites] and
      [SiteMapper._calculate_confidence]),
    - [src/classification/ad_analyzer.py] (class [AdAnalyzer]),
    followed by the properties the specification states about them.

    Python strings are modelled by [string]: sequences of characters with a
    code point below 256.  The Python built-ins the sources call are in
    module [Py]; what [urllib.parse.urlparse] answers is a parameter of the
    development (class [UrlLib]), with the CPython 3.10 behaviour as its
    reference instance.  Python floats are binary64 numbers (module
    [Float]): the quotient of two ints is the exact quotient rounded to the
    nearest float. *)

From Stdlib Require Import ZArith QArith Ascii String DecimalString List Lia Permutation.
From stdpp Require Import base option list sorting strings gmap.

Set Warnings "-register-all,-clear-no-such-hyp".

(** ** Python values, exceptions *)

(** A raw ad is a decoded JSON document: any nesting of these values (JSON
    numbers are taken to be integers; dictionaries keep insertion order). *)
Inductive PyVal : Type :=
  | VNone
  | VBool (b : bool)
  | VInt (z : Z)
  | VStr (s : string)
  | VList (l : list PyVal)
  | VDict (d : list (string * PyVal)).

(** The exceptions the modelled code can raise. *)
Inductive exn : Type :=
  AttributeError | TypeError | ZeroDivisionError | OverflowError.

Inductive result (A : Type) : Type :=
  | Ok (a : A)
  | Raise (e : exn).
Arguments Ok {A} a.
Arguments Raise {A} e.

#[global] Instance result_ret : MRet result := fun _ a => Ok a.
#[global] Instance result_bind : MBind result := fun _ _ f m =>
  match m with Ok a => f a | Raise e => Raise e end.

(** ** The Python built-ins used by the sources *)
Module Py.

Definition code (c : ascii) : N := N_of_ascii c.

(** [c.isspace()], also the class [\s] of [re] on [str] patterns. *)
Definition isspace (c : ascii) : bool :=
  let n := code c in
  ((9 <=? n) && (n <=? 13) || (28 <=? n) && (n <=? 32)
   || (n =? 133) || (n =? 160))%N.

(** [c.lower()]: A-Z, and the upper-case letters of Latin-1. *)
Definition lower_char (c : ascii) : ascii :=
  let n := code c in
  if ((65 <=? n) && (n <=? 90)
      || (192 <=? n) && (n <=? 222) && negb (n =? 215))%N
  then ascii_of_N (n + 32) else c.

Fixpoint lower (s : string) : string :=
  match s with
  | EmptyString => EmptyString
  | String c s' => String (lower_char c) (lower s')
  end.

(** [bool(s)] for a string. *)
Definition nonempty (s : string) : bool :=
  match s with EmptyString => false | String _ _ => true end.

(** [s.startswith(p)]. *)
Definition startswith (s p : string) : bool := String.prefix p s.

(** [needle in hay]. *)
Fixpoint contains (needle hay : string) : bool :=
  String.prefix needle hay ||
  match hay with
  | EmptyString => false
  | String _ hay' => contains needle hay'
  end.

(** [c in chars] for a character. *)
Fixpoint char_in (c : ascii) (chars : string) : bool :=
  match chars with
  | EmptyString => false
  | String d chars' => Ascii.eqb c d || char_in c chars'
  end.

(** [s.lstrip(...)] and [s.rstrip(...)], the characters to drop given by
    a predicate. *)
Fixpoint lstrip_by (p : ascii -> bool) (s : string) : string :=
  match s with
  | EmptyString => EmptyString
  | String c s' => if p c then lstrip_by p s' else s
  end.

Fixpoint rstrip_by (p : ascii -> bool) (s : string) : string :=
  match s with
  | EmptyString => EmptyString
  | String c s' =>
      let r := rstrip_by p s' in
      if negb (nonempty r) && p c then EmptyString else String c r
  end.

(** [s.strip()]. *)
Definition strip (s : string) : string :=
  rstrip_by isspace (lstrip_by isspace s).

(** [s.rstrip(chars)]. *)
Definition rstrip (chars s : string) : string :=
  rstrip_by (fun c => char_in c chars) s.

(** [s.replace(old, new)] for a non-empty [old]: the occurrences of [old]
    are found from the left and do not overlap.  [skip] counts the
    characters of the current occurrence still to be dropped. *)
Fixpoint replace_from (old new s : string) (skip : nat) : string :=
  match s with
  | EmptyString => EmptyString
  | String c s' =>
      match skip with
      | S k => replace_from old new s' k
      | O =>
          if String.prefix old s
          then new +:+ replace_from old new s' (String.length old - 1)
          else String c (replace_from old new s' 0)
      end
  end.

Definition replace (old new s : string) : string := replace_from old new s 0.

(** [s.split(sep)[0]] for a one-character [sep]. *)
Fixpoint split_head (sep : ascii) (s : string) : string :=
  match s with
  | EmptyString => EmptyString
  | String c s' => if Ascii.eqb c sep then EmptyString
                   else String c (split_head sep s')
  end.

(** [s[n:]]. *)
Fixpoint drop (n : nat) (s : string) : string :=
  match n, s with
  | O, _ => s
  | S _, EmptyString => EmptyString
  | S n', String _ s' => drop n' s'
  end.

(** The longest prefix of [s] made of characters satisfying [p]. *)
Fixpoint span (p : ascii -> bool) (s : string) : string :=
  match s with
  | EmptyString => EmptyString
  | String c s' => if p c then String c (span p s') else EmptyString
  end.

(** The double quote, character 34. *)
Definition dquote : ascii := "034"%char.

(** The negated class of the URL pattern: any character but white space,
    [<], [>] and the double quote. *)
Definition url_char (c : ascii) : bool :=
  negb (isspace c || char_in c (String "<"%char (String ">"%char (String dquote EmptyString)))).

(** A match of the pattern [https?://] followed by one or more [url_char],
    anchored at the start of [s]. *)
Definition match_url (s : string) : option string :=
  let try_scheme (scheme : string) :=
    if String.prefix scheme s then
      let tail := span url_char (drop (String.length scheme) s) in
      if nonempty tail then Some (scheme +:+ tail) else None
    else None in
  match try_scheme "https://" with
  | Some m => Some m
  | None => try_scheme "http://"
  end.

(** [re.findall] with that pattern: matches are searched from the left,
    each search resuming where the previous match ended. *)
Fixpoint findall_from (s : string) (skip : nat) : list string :=
  match s with
  | EmptyString => []
  | String _ s' =>
      match skip with
      | S k => findall_from s' k
      | O =>
          match match_url s with
          | Some m => m :: findall_from s' (String.length m - 1)
          | None => findall_from s' 0
          end
      end
  end.

Definition findall_urls (s : string) : list string := findall_from s 0.

(** Truth value of a Python object. *)
Definition truthy (v : PyVal) : bool :=
  match v with
  | VNone => false
  | VBool b => b
  | VInt z => negb (z =? 0)%Z
  | VStr s => nonempty s
  | VList l => match l with [] => false | _ => true end
  | VDict d => match d with [] => false | _ => true end
  end.

(** [d.get(key, default)] on the items of a dict. *)
Fixpoint dict_get (d : list (string * PyVal)) (key : string)
    (default : PyVal) : PyVal :=
  match d with
  | [] => default
  | (k, v) :: d' => if String.eqb k key then v else dict_get d' key default
  end.

(** [obj.get(key, default)]: only a dict has the method. *)
Definition get (obj : PyVal) (key : string) (default : PyVal)
    : result PyVal :=
  match obj with
  | VDict d => Ok (dict_get d key default)
  | _ => Raise AttributeError
  end.

(** [for x in obj]: the sequence a [for] loop runs over. *)
Definition iter (obj : PyVal) : result (list PyVal) :=
  match obj with
  | VList l => Ok l
  | VDict d => Ok (map (fun kv => VStr (fst kv)) d)
  | VStr s => Ok (map (fun c => VStr (String c EmptyString))
                      (list_ascii_of_string s))
  | _ => Raise TypeError
  end.

End Py.

(** ** [str(obj)] *)
Module PyStr.

Definition hex_digit (n : N) : ascii :=
  if (n <? 10)%N then ascii_of_N (48 + n) else ascii_of_N (87 + n).

(** [c.isprintable()]. *)
Definition isprintable (c : ascii) : bool :=
  let n := Py.code c in
  ((32 <=? n) && (n <=? 126) || (161 <=? n) && negb (n =? 173))%N.

Definition squote : ascii := "039"%char.
Definition backslash : ascii := "092"%char.

Definition escape_char (quote c : ascii) : string :=
  let n := Py.code c in
  if Ascii.eqb c quote || Ascii.eqb c backslash
  then String backslash (String c EmptyString)
  else if (n =? 9)%N then String backslash "t"
  else if (n =? 10)%N then String backslash "n"
  else if (n =? 13)%N then String backslash "r"
  else if isprintable c then String c EmptyString
  else String backslash
         (String "x"%char
            (String (hex_digit (n / 16)) (String (hex_digit (n mod 16)) EmptyString))).

Fixpoint escape (quote : ascii) (s : string) : string :=
  match s with
  | EmptyString => EmptyString
  | String c s' => escape_char quote c +:+ escape quote s'
  end.

(** [repr(s)] for a string: single quotes, unless the string holds a
    single quote and no double quote. *)
Definition repr_str (s : string) : string :=
  let quote :=
    if Py.char_in squote s && negb (Py.char_in Py.dquote s)
    then Py.dquote else squote in
  String quote (escape quote s +:+ String quote EmptyString).

Definition repr_int (z : Z) : string :=
  DecimalString.NilZero.string_of_int (Z.to_int z).

Fixpoint join (sep : string) (l : list string) : string :=
  match l with
  | [] => EmptyString
  | [x] => x
  | x :: l' => x +:+ sep +:+ join sep l'
  end.

Fixpoint repr (v : PyVal) : string :=
  match v with
  | VNone => "None"
  | VBool b => if b then "True" else "False"
  | VInt z => repr_int z
  | VStr s => repr_str s
  | VList l => "[" +:+ join ", " (map repr l) +:+ "]"
  | VDict d =>
      "{" +:+ join ", " (map (fun '(k, x) => repr_str k +:+ ": " +:+ repr x) d) +:+ "}"
  end.

(** [str(v)]: the string itself, [repr] for the other values. *)
Definition str (v : PyVal) : string :=
  match v with
  | VStr s => s
  | _ => repr v
  end.

End PyStr.

(** ** [urllib.parse] *)

(** [urlparse(url).netloc]; [None] stands for the [ValueError] that
    [urlparse] raises on some URLs. *)
Class UrlLib := { urlparse_netloc : string -> option string }.

(** The reference instance: [urlsplit] of CPython 3.10, on the strings of
    this model.  (Later releases also validate a bracketed host; for
    characters below 256 the NFKC test of [_checknetloc] never fires.) *)
Module Urllib.

(** [_UNSAFE_URL_BYTES_TO_REMOVE]: tab, carriage return, line feed. *)
Definition unsafe (c : ascii) : bool :=
  let n := Py.code c in ((n =? 9) || (n =? 13) || (n =? 10))%N.

Fixpoint remove_unsafe (s : string) : string :=
  match s with
  | EmptyString => EmptyString
  | String c s' => if unsafe c then remove_unsafe s'
                   else String c (remove_unsafe s')
  end.

(** [scheme_chars]: letters, digits, [+], [-] and [.]. *)
Definition scheme_char (c : ascii) : bool :=
  let n := Py.code c in
  ((97 <=? n) && (n <=? 122) || (65 <=? n) && (n <=? 90)
   || (48 <=? n) && (n <=? 57))%N
  || Py.char_in c "+-.".

(** What follows the first colon, when only scheme characters precede it. *)
Fixpoint after_scheme (s : string) : option string :=
  match s with
  | EmptyString => None
  | String c s' =>
      if Ascii.eqb c ":" then Some s'
      else if scheme_char c then after_scheme s' else None
  end.

(** The URL once its scheme is split off ([url.find(':') > 0]). *)
Definition drop_scheme (url : string) : string :=
  match url with
  | EmptyString => url
  | String c _ =>
      if Ascii.eqb c ":" then url
      else match after_scheme url with Some rest => rest | None => url end
  end.

(** [_splitnetloc(url, 2)[0]]: up to the first of [/], [?], [#]. *)
Definition splitnetloc (url : string) : string :=
  Py.span (fun c => negb (Py.char_in c "/?#")) (Py.drop 2 url).

Definition netloc (url : string) : option string :=
  let url := drop_scheme (remove_unsafe url) in
  if Py.startswith url "//" then
    let netloc := splitnetloc url in
    let opening := Py.char_in "["%char netloc in
    let closing := Py.char_in "]"%char netloc in
    if opening && negb closing || closing && negb opening
    then None
    else Some netloc
  else Some EmptyString.

End Urllib.

#[global] Instance cpython : UrlLib := {| urlparse_netloc := Urllib.netloc |}.

(** ** [url_classifier.py]: class [URLClassifier] *)

(** The values of ['classification']: [CONVERTY] is the spec's SELF and
    [CONCURRENT] its COMPETITOR. *)
Inductive Classification : Type := CONVERTY | CONCURRENT | UNKNOWN.

Inductive Confidence : Type := high | medium | low.

#[global] Instance Classification_eq_dec : EqDecision Classification.
Proof. solve_decision. Defined.
#[global] Instance Confidence_eq_dec : EqDecision Confidence.
Proof. solve_decision. Defined.

Record ClassificationResult : Type := {
  classification : Classification;
  confidence : Confidence;
  reason : string;
  destination_url : option string;
  competitor_domain : option string
}.

Definition IGNORED_DOMAINS : list string :=
  [ "facebook.com"; "instagram.com"; "fb.com"; "fb.me"; "bit.ly";
    "tinyurl.com"; "l.facebook.com"; "l.instagram.com" ].

(** The letter e with an acute accent, character 233, of the French
    messages. *)
Definition e_acute : string := String "233"%char EmptyString.

Definition reason_no_url : string :=
  "Aucune URL trouv" +:+ e_acute +:+ "e dans la publicit" +:+ e_acute.
Definition reason_converty (converty_domain : string) : string :=
  "URL contient le domaine Converty: " +:+ converty_domain.
Definition reason_concurrent (domain : string) : string :=
  "URL pointe vers un domaine concurrent: " +:+ domain.
Definition reason_no_commercial : string :=
  "Aucune URL commerciale identifi" +:+ e_acute +:+ "e".

(** [url.strip().rstrip('.,;:!?)')]. *)
Definition clean_url (url : string) : string :=
  Py.rstrip ".,;:!?)" (Py.strip url).

(** [re.findall(pattern, text)] raises [TypeError] unless [text] is a
    string. *)
Definition re_findall (text : PyVal) : result (list string) :=
  match text with
  | VStr s => Ok (Py.findall_urls s)
  | _ => Raise TypeError
  end.

(** [if text: urls.extend(re.findall(pattern, text))]. *)
Definition extend_found (urls : list PyVal) (text : PyVal)
    : result (list PyVal) :=
  if Py.truthy text then
    found_urls ← re_findall text;
    Ok (urls ++ map VStr found_urls)
  else Ok urls.

(** The loop over the cards of a carousel. *)
Fixpoint cards_loop (cards : list PyVal) (urls : list PyVal)
    : result (list PyVal) :=
  match cards with
  | [] => Ok urls
  | card :: cards' =>
      card_url ← Py.get card "link_url" VNone;
      cards_loop cards' (if Py.truthy card_url then urls ++ [card_url] else urls)
  end.

(** The closing loop: clean every URL, keep the first occurrence of each. *)
Fixpoint unique_loop (urls : list PyVal) (unique_urls : list string)
    (seen : gset string) : result (list string) :=
  match urls with
  | [] => Ok unique_urls
  | VStr url :: urls' =>
      let url := clean_url url in
      if Py.nonempty url && negb (bool_decide (url ∈ seen))
      then unique_loop urls' (unique_urls ++ [url]) ({[ url ]} ∪ seen)
      else unique_loop urls' unique_urls seen
  | _ :: _ => Raise AttributeError
  end.

Definition _extract_urls_from_ad (ad : PyVal) : result (list string) :=
  let urls := [] in
  snapshot ← Py.get ad "snapshot" (VDict []);
  link_url ← Py.get snapshot "link_url" VNone;
  let urls := if Py.truthy link_url then urls ++ [link_url] else urls in
  cards ← Py.get snapshot "cards" (VList []);
  cards ← Py.iter cards;
  urls ← cards_loop cards urls;
  caption ← Py.get snapshot "caption" (VStr EmptyString);
  urls ← extend_found urls caption;
  body ← Py.get snapshot "body" (VDict []);
  body_text ← match body with
              | VDict _ => Py.get body "text" (VStr EmptyString)
              | _ => Ok (VStr (PyStr.str body))
              end;
  urls ← extend_found urls body_text;
  unique_loop urls [] ∅.

Section Classifier.
Context `{UrlLib}.

(** The [try] block of [_extract_domain]; the [except] clause turns the
    [ValueError] of [urlparse] into [None]. *)
Definition _extract_domain (url : string) : option string :=
  let url := if Py.startswith url "http://" || Py.startswith url "https://"
             then url else "http://" +:+ url in
  match urlparse_netloc url with
  | None => None
  | Some domain =>
      if negb (Py.nonempty domain) then None
      else
        let domain := Py.lower domain in
        let domain := Py.replace "www." EmptyString domain in
        let domain := if Py.contains ":" domain
                      then Py.split_head ":" domain else domain in
        if Py.nonempty domain then Some domain else None
  end.

Definition _is_ignored_domain (domain : string) : bool :=
  let domain_lower := Py.lower domain in
  existsb (fun ignored => Py.contains ignored domain_lower) IGNORED_DOMAINS.

(** The [for url in urls] loop of [classify_ad]; [None] when the loop ends
    without a [return]. *)
Fixpoint classify_loop (converty_domain : string) (urls : list string)
    : option ClassificationResult :=
  match urls with
  | [] => None
  | url :: urls' =>
      let url_lower := Py.lower url in
      if Py.contains (Py.lower converty_domain) url_lower then
        Some {| classification := CONVERTY;
                confidence := high;
                reason := reason_converty converty_domain;
                destination_url := Some url;
                competitor_domain := None |}
      else
        match _extract_domain url with
        | None => classify_loop converty_domain urls'
        | Some domain =>
            if negb (Py.nonempty domain) then
              classify_loop converty_domain urls'
            else if _is_ignored_domain domain then
              classify_loop converty_domain urls'
            else
              Some {| classification := CONCURRENT;
                      confidence := high;
                      reason := reason_concurrent domain;
                      destination_url := Some url;
                      competitor_domain := Some domain |}
        end
  end.

(** [classify_ad] once the URLs are extracted. *)
Definition classify_urls (urls : list string) (converty_domain : string)
    : ClassificationResult :=
  match urls with
  | [] => {| classification := UNKNOWN;
             confidence := low;
             reason := reason_no_url;
             destination_url := None;
             competitor_domain := None |}
  | _ :: _ =>
      match classify_loop converty_domain urls with
      | Some r => r
      | None => {| classification := UNKNOWN;
                   confidence := medium;
                   reason := reason_no_commercial;
                   destination_url := head urls;
                   competitor_domain := None |}
      end
  end.

Definition classify_ad (ad : PyVal) (converty_domain : string)
    : result ClassificationResult :=
  urls ← _extract_urls_from_ad ad;
  Ok (classify_urls urls converty_domain).

End Classifier.

(** ** Python floats

    A Python float is an IEEE 754 binary64 number.  Every finite one is a
    whole multiple of 2^-1074, the smallest positive one, and is kept here
    as that multiple: the float [m * 2^e] is the integer [m * 2^(e + 1074)].
    The largest finite float is [(2^53 - 1) * 2^971]; a result that rounds
    to 2^1024 or beyond is out of range. *)
Module Float.

Abbreviation float := Z (only parsing).

(** The integer nearest to [n / d], for [0 < d]; a tie goes to the even
    one. *)
Definition round_half_even (n d : Z) : Z :=
  let q := (n / d)%Z in
  let r := (n mod d)%Z in
  if (2 * r <? d)%Z then q
  else if (d <? 2 * r)%Z then (q + 1)%Z
  else if Z.even q then q else (q + 1)%Z.

(** The float nearest to [a / b], for [0 <= a] and [0 < b].  A quotient of
    2^-1021 or more is rounded to 53 significant bits, the last of them
    [shift] places above 2^-1074; a smaller one is rounded to a multiple
    of 2^-1074. *)
Definition nearest (a b : Z) : float :=
  let n := (a * 2 ^ 1074)%Z in
  let shift := (Z.log2 (n / b) - 52)%Z in
  if (shift <=? 0)%Z then round_half_even n b
  else (round_half_even n (b * 2 ^ shift) * 2 ^ shift)%Z.

(** 2^1024, the first power of two out of range. *)
Definition infinity : float := (2 ^ 2098)%Z.

(** [a / b] on two ints: the exact quotient, rounded to the nearest
    float. *)
Definition true_divide (a b : Z) : result float :=
  if (b =? 0)%Z then Raise ZeroDivisionError
  else
    let r := nearest (Z.abs a) (Z.abs b) in
    if (infinity <=? r)%Z then Raise OverflowError
    else Ok (Z.sgn a * Z.sgn b * r)%Z.

(** [x >= y]. *)
Definition ge (x y : float) : bool := (y <=? x)%Z.

End Float.

(** The literals [0.7] and [0.3]: the floats nearest to 7/10 and 3/10,
    [0x1.6666666666666p-1] and [0x1.3333333333333p-2], both a little
    below the fraction. *)
Definition float_0_7 : Z := Float.nearest 7 10.
Definition float_0_3 : Z := Float.nearest 3 10.

(** ** [site_mapper.py]: [SiteMapper._calculate_confidence] *)
Definition _calculate_confidence (page_ads total_ads : Z)
    : result Confidence :=
  if (total_ads =? 0)%Z then Ok low
  else
    ratio ← Float.true_divide page_ads total_ads;
    if Float.ge ratio float_0_7 then Ok high
    else if Float.ge ratio float_0_3 then Ok medium
    else Ok low.

(** ** [ad_analyzer.py]: class [AdAnalyzer] *)

(** The ads client, a collaborator: the complete ad history of a page. *)
Class ApifyClient := { get_all_ads_by_page_id : string -> list PyVal }.

(** A page of the mapping, as far as the analyzer reads it
    ([page['page_id']], [page['page_name']]). *)
Record FbPage : Type := { fb_page_id : string; fb_page_name : string }.

Record SiteMapping : Type := { site : string; fb_pages : list FbPage }.

Record MappingData : Type := { client_id : string; mappings : list SiteMapping }.

Record ClassifiedAd : Type := {
  ad_id : PyVal;
  ad_classification : Classification;
  ad_confidence : Confidence;
  ad_reason : string;
  ad_destination_url : option string;
  ad_competitor_domain : option string;
  ad_creation_time : PyVal;
  ad_delivery_start_time : PyVal
}.

Record Competitor : Type := { domain : string; ads_count : Z }.

(** The float fields [converty_ratio] and [concurrent_ratio] are left out. *)
Record PageAnalysis : Type := {
  page_id : string;
  page_name : string;
  converty_domain : string;
  total_ads : Z;
  converty_ads : Z;
  concurrent_ads : Z;
  unknown_ads : Z;
  competitors : list Competitor;
  classified_ads : list ClassifiedAd
}.

Record TopCompetitor : Type := { top_domain : string; top_total_ads : Z }.

Record GlobalStats : Type := {
  stats_total_ads : Z;
  stats_converty_ads : Z;
  stats_concurrent_ads : Z;
  stats_unknown_ads : Z
}.

Record Report : Type := {
  report_client_id : string;
  analyzed_at : string;
  pages_analyzed : Z;
  global_stats : GlobalStats;
  top_competitors : list TopCompetitor;
  page_details : list PageAnalysis
}.

(** *** Dictionaries from domain to count

    A Python dict keeps its keys in insertion order, and the order is
    observed by [sorted]: the items are kept as an association list. *)
Abbreviation Counter := (list (string * Z)).

(** [d.get(key, default)]. *)
Fixpoint counter_get (d : Counter) (key : string) (default : Z) : Z :=
  match d with
  | [] => default
  | (k, v) :: d' => if String.eqb k key then v else counter_get d' key default
  end.

(** [key in d]. *)
Fixpoint counter_mem (d : Counter) (key : string) : bool :=
  match d with
  | [] => false
  | (k, _) :: d' => String.eqb k key || counter_mem d' key
  end.

(** [d[key] = value]: in place for a known key, at the end for a new one. *)
Fixpoint counter_set (d : Counter) (key : string) (value : Z) : Counter :=
  match d with
  | [] => [(key, value)]
  | (k, v) :: d' =>
      if String.eqb k key then (k, value) :: d'
      else (k, v) :: counter_set d' key value
  end.

(** [sorted(d.items(), key=lambda x: x[1], reverse=True)]: Python's sort is
    stable, also with [reverse=True]; items of equal count keep their
    order.  An item goes in front of the first one whose count is not
    larger. *)
Fixpoint insert_desc (x : string * Z) (l : list (string * Z))
    : list (string * Z) :=
  match l with
  | [] => [x]
  | y :: l' => if (snd y <=? snd x)%Z then x :: l else y :: insert_desc x l'
  end.

Definition sorted_desc (items : list (string * Z)) : list (string * Z) :=
  foldr insert_desc [] items.

(** *** [_analyze_page] *)

(** The variables the loop over the ads of a page updates. *)
Record Tally : Type := {
  tally_classified_ads : list ClassifiedAd;
  converty_count : Z;
  concurrent_count : Z;
  unknown_count : Z;
  tally_competitors : Counter
}.

Definition empty_tally : Tally :=
  {| tally_classified_ads := []; converty_count := 0; concurrent_count := 0;
     unknown_count := 0; tally_competitors := [] |}.

Section Analyzer.
Context `{UrlLib} `{ApifyClient}.

(** One turn of [for ad in all_page_ads]; [verdict] is the source's
    variable [classification]. *)
Definition tally_ad (converty_domain : string) (ad : PyVal) (t : Tally)
    : result Tally :=
  verdict ← classify_ad ad converty_domain;
  ad_archive_id ← Py.get ad "ad_archive_id" VNone;
  creation_time ← Py.get ad "ad_creation_time" VNone;
  delivery_start_time ← Py.get ad "ad_delivery_start_time" VNone;
  let classified_ad :=
    {| ad_id := ad_archive_id;
       ad_classification := verdict.(classification);
       ad_confidence := verdict.(confidence);
       ad_reason := verdict.(reason);
       ad_destination_url := verdict.(destination_url);
       ad_competitor_domain := verdict.(competitor_domain);
       ad_creation_time := creation_time;
       ad_delivery_start_time := delivery_start_time |} in
  let classified_ads := t.(tally_classified_ads) ++ [classified_ad] in
  Ok match verdict.(classification) with
     | CONVERTY =>
         {| tally_classified_ads := classified_ads;
            converty_count := t.(converty_count) + 1;
            concurrent_count := t.(concurrent_count);
            unknown_count := t.(unknown_count);
            tally_competitors := t.(tally_competitors) |}
     | CONCURRENT =>
         let competitors := t.(tally_competitors) in
         {| tally_classified_ads := classified_ads;
            converty_count := t.(converty_count);
            concurrent_count := t.(concurrent_count) + 1;
            unknown_count := t.(unknown_count);
            tally_competitors :=
              match verdict.(competitor_domain) with
              | Some competitor_domain =>
                  if Py.nonempty competitor_domain
                  then counter_set competitors competitor_domain
                         (counter_get competitors competitor_domain 0 + 1)
                  else competitors
              | None => competitors
              end |}
     | UNKNOWN =>
         {| tally_classified_ads := classified_ads;
            converty_count := t.(converty_count);
            concurrent_count := t.(concurrent_count);
            unknown_count := t.(unknown_count) + 1;
            tally_competitors := t.(tally_competitors) |}
     end.

Fixpoint tally_loop (converty_domain : string) (ads : list PyVal)
    (t : Tally) : result Tally :=
  match ads with
  | [] => Ok t
  | ad :: ads' =>
      t' ← tally_ad converty_domain ad t;
      tally_loop converty_domain ads' t'
  end.

Definition _analyze_page (page : FbPage) (converty_domain : string)
    : result PageAnalysis :=
  let page_id := page.(fb_page_id) in
  let page_name := page.(fb_page_name) in
  let all_page_ads := get_all_ads_by_page_id page_id in
  t ← tally_loop converty_domain all_page_ads empty_tally;
  let total := Z.of_nat (length t.(tally_classified_ads)) in
  Ok {| page_id := page_id;
        page_name := page_name;
        converty_domain := converty_domain;
        total_ads := total;
        converty_ads := t.(converty_count);
        concurrent_ads := t.(concurrent_count);
        unknown_ads := t.(unknown_count);
        competitors :=
          map (fun '(domain, count) => {| domain := domain; ads_count := count |})
              (sorted_desc t.(tally_competitors));
        classified_ads := t.(tally_classified_ads) |}.

(** *** [_calculate_global_stats], without the two rounded ratios *)
Definition sum_by {A} (f : A -> Z) (l : list A) : Z :=
  foldr (fun x acc => f x + acc)%Z 0%Z l.

Definition _calculate_global_stats (page_analyses : list PageAnalysis)
    : GlobalStats :=
  {| stats_total_ads := sum_by total_ads page_analyses;
     stats_converty_ads := sum_by converty_ads page_analyses;
     stats_concurrent_ads := sum_by concurrent_ads page_analyses;
     stats_unknown_ads := sum_by unknown_ads page_analyses |}.

(** *** [_aggregate_competitors] *)

(** The body of the two nested loops, for one competitor entry. *)
Definition add_competitor (all_competitors : Counter) (competitor : Competitor)
    : Counter :=
  let domain := competitor.(domain) in
  let count := competitor.(ads_count) in
  if counter_mem all_competitors domain
  then counter_set all_competitors domain
         (counter_get all_competitors domain 0 + count)
  else counter_set all_competitors domain count.

Definition merge_competitors (page_analyses : list PageAnalysis) : Counter :=
  foldl (fun all_competitors page_analysis =>
           foldl add_competitor all_competitors page_analysis.(competitors))
        [] page_analyses.

Definition _aggregate_competitors (page_analyses : list PageAnalysis)
    : list TopCompetitor :=
  let all_competitors := merge_competitors page_analyses in
  map (fun '(domain, count) => {| top_domain := domain; top_total_ads := count |})
      (sorted_desc all_competitors).

(** *** [analyze_client] *)
Fixpoint pages_loop (converty_domain : string) (pages : list FbPage)
    (page_analyses : list PageAnalysis) : result (list PageAnalysis) :=
  match pages with
  | [] => Ok page_analyses
  | page :: pages' =>
      page_analysis ← _analyze_page page converty_domain;
      pages_loop converty_domain pages' (page_analyses ++ [page_analysis])
  end.

Fixpoint sites_loop (site_mappings : list SiteMapping)
    (page_analyses : list PageAnalysis) : result (list PageAnalysis) :=
  match site_mappings with
  | [] => Ok page_analyses
  | site_mapping :: site_mappings' =>
      let converty_domain := site_mapping.(site) in
      page_analyses ← pages_loop converty_domain site_mapping.(fb_pages)
                        page_analyses;
      sites_loop site_mappings' page_analyses
  end.

(** The report built from the page analyses (the statements after the
    loops); [now] is [datetime.now().isoformat()]. *)
Definition make_report (client_id now : string)
    (page_analyses : list PageAnalysis) : Report :=
  let stats := _calculate_global_stats page_analyses in
  let all_competitors := _aggregate_competitors page_analyses in
  {| report_client_id := client_id;
     analyzed_at := now;
     pages_analyzed := Z.of_nat (length page_analyses);
     global_stats := stats;
     top_competitors := take 20 all_competitors;
     page_details := page_analyses |}.

Definition analyze_client (mapping_data : MappingData) (now : string)
    : result Report :=
  let client_id := mapping_data.(client_id) in
  page_analyses ← sites_loop mapping_data.(mappings) [];
  Ok (make_report client_id now page_analyses).

End Analyzer.

(** ** Vocabulary of the specification *)

(** *** Section 4.2: what the classifier does with one candidate *)
Section Candidates.
Context `{UrlLib}.

(** The owned domain occurs in the URL, letter case aside. *)
Definition mentions (converty_domain url : string) : bool :=
  Py.contains (Py.lower converty_domain) (Py.lower url).

(** The URL has no host, or a host of the ignore list. *)
Definition host_skipped (url : string) : bool :=
  match _extract_domain url with
  | None => true
  | Some host => _is_ignored_domain host
  end.

(** The candidate yields neither SELF nor COMPETITOR. *)
Definition skipped (converty_domain url : string) : bool :=
  negb (mentions converty_domain url) && host_skipped url.

End Candidates.

(** *** Section 4.1: [extractUrls], in the words of the specification

    A second definition of the URL extractor, written from the text of the
    specification and compared below with [_extract_urls_from_ad]. *)

(** A field of a record; [None] when the field, or the record, is absent. *)
Fixpoint dict_lookup (d : list (string * PyVal)) (key : string)
    : option PyVal :=
  match d with
  | [] => None
  | (k, v) :: d' => if String.eqb k key then Some v else dict_lookup d' key
  end.

Definition field (obj : PyVal) (key : string) : option PyVal :=
  match obj with
  | VDict d => dict_lookup d key
  | _ => None
  end.

Definition text_of (v : option PyVal) : string :=
  match v with
  | Some (VStr s) => s
  | _ => EmptyString
  end.

(** [link_url] if present. *)
Definition link_of (obj : PyVal) : list string :=
  match field obj "link_url" with
  | Some (VStr s) => [s]
  | _ => []
  end.

Definition cards_of (snapshot : PyVal) : list PyVal :=
  match field snapshot "cards" with
  | Some (VList cards) => cards
  | _ => []
  end.

(** The body text: [body.text] of a structured body, else the body as plain
    text.  The specification knows a body of free text or with a [text]; a
    body of another type is rendered as Python's [str] does. *)
Definition body_text_of (snapshot : PyVal) : string :=
  match field snapshot "body" with
  | None => EmptyString
  | Some (VDict b) => text_of (field (VDict b) "text")
  | Some (VStr text) => text
  | Some body => PyStr.str body
  end.

(** The four sources, in their priority order. *)
Definition candidates (ad : PyVal) : list string :=
  let snapshot := default (VDict []) (field ad "snapshot") in
  link_of snapshot
  ++ flat_map link_of (cards_of snapshot)
  ++ Py.findall_urls (text_of (field snapshot "caption"))
  ++ Py.findall_urls (body_text_of snapshot).

(** Every character of [s] satisfies [p]. *)
Fixpoint all_chars (p : ascii -> bool) (s : string) : bool :=
  match s with
  | EmptyString => true
  | String c s' => p c && all_chars p s'
  end.

(** The first, the last character of [s] satisfies [p]. *)
Definition starts_with (p : ascii -> bool) (s : string) : bool :=
  match s with
  | EmptyString => false
  | String c _ => p c
  end.

Fixpoint ends_with (p : ascii -> bool) (s : string) : bool :=
  match s with
  | EmptyString => false
  | String c EmptyString => p c
  | String _ s' => ends_with p s'
  end.

(** [c.lower() == c]. *)
Definition is_lower (c : ascii) : bool := Ascii.eqb (Py.lower_char c) c.

(** The characters [clean_url] strips from the end of a URL. *)
Definition trailing_punctuation (c : ascii) : bool := Py.char_in c ".,;:!?)".

(** [cleaned] is [url] trimmed: the white space around [url] is removed,
    all of it, and from what is left the punctuation at its end, all of
    it.  White space that stood before that punctuation stays. *)
Definition trimmed (url cleaned : string) : Prop :=
  ∃ space_before punctuation space_after,
    url = space_before +:+ cleaned +:+ punctuation +:+ space_after
    ∧ all_chars Py.isspace space_before = true
    ∧ all_chars trailing_punctuation punctuation = true
    ∧ all_chars Py.isspace space_after = true
    ∧ starts_with Py.isspace (cleaned +:+ punctuation) = false
    ∧ ends_with Py.isspace (cleaned +:+ punctuation) = false
    ∧ ends_with trailing_punctuation cleaned = false.

(** [u] is an occurrence of the URL pattern: [http://] or [https://], then
    one or more characters other than white space, [<], [>] and the double
    quote. *)
Definition url_match (u : string) : Prop :=
  ∃ scheme tail,
    u = scheme +:+ tail
    ∧ (scheme = "http://" ∨ scheme = "https://")
    ∧ Py.nonempty tail = true
    ∧ all_chars Py.url_char tail = true.

(** [s] begins with an occurrence of the pattern. *)
Definition starts_url (s : string) : Prop :=
  ∃ scheme c rest,
    s = scheme +:+ String c rest
    ∧ (scheme = "http://" ∨ scheme = "https://")
    ∧ Py.url_char c = true.

(** [urls] are all the occurrences of the pattern in [text], from left to
    right: each begins at the first place where one begins, is the longest
    one there, and the search goes on behind it (occurrences do not
    overlap). *)
Inductive occurrences : string -> list string -> Prop :=
  | occurrences_none text :
      (∀ before after, text = before +:+ after → ¬ starts_url after) →
      occurrences text []
  | occurrences_next gap u rest urls :
      (∀ before after, gap = before +:+ after → after ≠ EmptyString →
                       ¬ starts_url (after +:+ u +:+ rest)) →
      url_match u →
      starts_with Py.url_char rest = false →
      occurrences rest urls →
      occurrences (gap +:+ u +:+ rest) (u :: urls).

(** Deduplication by string equality, the first occurrence kept. *)
Fixpoint first_occurrences (l : list string) : list string :=
  match l with
  | [] => []
  | x :: l' => x :: filter (fun y => y ≠ x) (first_occurrences l')
  end.

(** Cleaning, then dropping the URLs that became empty. *)
Definition cleaned (l : list string) : list string :=
  filter (fun url => Py.nonempty url = true) (map clean_url l).

Definition extractUrls (ad : PyVal) : list string :=
  first_occurrences (cleaned (candidates ad)).

(** The same in the words of the specification alone: [urls] is obtained
    from the snapshot link, the card links in card order, all the
    occurrences of the pattern in the caption and all those in the body
    text, by trimming each, dropping the empty ones and keeping the first
    occurrence of each string. *)
Definition extracts (ad : PyVal) (urls : list string) : Prop :=
  let snapshot := default (VDict []) (field ad "snapshot") in
  ∃ in_caption in_body trimmed_urls,
    occurrences (text_of (field snapshot "caption")) in_caption
    ∧ occurrences (body_text_of snapshot) in_body
    ∧ Forall2 trimmed
        (link_of snapshot ++ flat_map link_of (cards_of snapshot)
         ++ in_caption ++ in_body)
        trimmed_urls
    ∧ urls = first_occurrences
               (filter (fun url => url ≠ EmptyString) trimmed_urls).

(** *** Section 7: the shapes of a raw ad that the extractor accepts *)

(** A string, or a value that counts as false. *)
Definition str_or_falsy (v : PyVal) : bool :=
  match v with
  | VStr _ => true
  | _ => negb (Py.truthy v)
  end.

Definition card_ok (card : PyVal) : bool :=
  match card with
  | VDict c => str_or_falsy (Py.dict_get c "link_url" VNone)
  | _ => false
  end.

(** A list of cards (dicts), or an empty dict or an empty string, over which
    the loop does not turn. *)
Definition cards_ok (cards : PyVal) : bool :=
  match cards with
  | VList l => forallb card_ok l
  | VDict [] => true
  | VStr EmptyString => true
  | _ => false
  end.

Definition body_ok (body : PyVal) : bool :=
  match body with
  | VDict b => str_or_falsy (Py.dict_get b "text" (VStr EmptyString))
  | _ => true
  end.

Definition snapshot_ok (snapshot : PyVal) : bool :=
  match snapshot with
  | VDict s =>
      str_or_falsy (Py.dict_get s "link_url" VNone)
      && cards_ok (Py.dict_get s "cards" (VList []))
      && str_or_falsy (Py.dict_get s "caption" (VStr EmptyString))
      && body_ok (Py.dict_get s "body" (VDict []))
  | _ => false
  end.

(** The ad is a dict; its snapshot is absent or a dict; every [link_url],
    the caption and the text of a structured body are absent, false or a
    string; the cards are absent or a list of dicts. *)
Definition well_shaped (ad : PyVal) : bool :=
  match ad with
  | VDict a => snapshot_ok (Py.dict_get a "snapshot" (VDict []))
  | _ => false
  end.

(** *** Sections 4.4 and 4.5 *)

(** The least quotient that rounds to the float [0.7], the midpoint below
    it (the mantissa of [0.7] is even: the midpoint rounds up to it); it is
    7/10 - 9/(5 * 2^54). *)
Definition high_from : Q := 12610078956637387 # 18014398509481984.

(** The midpoint below the float [0.3], which rounds down (the mantissa of
    [0.3] is odd): the quotients above it round to [0.3] or more; it is
    3/10 - 7/(5 * 2^55). *)
Definition medium_above : Q := 10808639105689189 # 36028797018963968.

(** The least quotient that rounds out of range: the midpoint between the
    largest float and 2^1024. *)
Definition overflow_from : Z := ((2 ^ 54 - 1) * 2 ^ 970)%Z.

(** The order low < medium < high. *)
Definition rank (c : Confidence) : nat :=
  match c with low => 0 | medium => 1 | high => 2 end.

(** All the competitor entries of the pages, in order. *)
Definition competitor_entries (page_analyses : list PageAnalysis)
    : list Competitor :=
  flat_map competitors page_analyses.

(** The aggregate count of a domain: the sum over its entries. *)
Definition aggregate_count (entries : list Competitor) (d : string) : Z :=
  sum_by ads_count (filter (fun c => c.(domain) = d) entries).

(** The ads of a page analysis classified as competitor of a domain. *)
Definition ads_against (d : string) (ads : list ClassifiedAd) : list ClassifiedAd :=
  filter (fun a => a.(ad_classification) = CONCURRENT
                   ∧ a.(ad_competitor_domain) = Some d) ads.

(** The ads of a list that received a given classification. *)
Definition ads_classified (c : Classification) (ads : list ClassifiedAd)
    : list ClassifiedAd :=
  filter (fun a => a.(ad_classification) = c) ads.

(** What the loop of [_analyze_page] maintains: each counter is the number
    of ads classified so, the dictionary of competitors has one key for each
    competitor domain met, its value the number of ads against it. *)
Definition tally_consistent (t : Tally) : Prop :=
  let ads := t.(tally_classified_ads) in
  t.(converty_count) = Z.of_nat (length (ads_classified CONVERTY ads))
  ∧ t.(concurrent_count) = Z.of_nat (length (ads_classified CONCURRENT ads))
  ∧ t.(unknown_count) = Z.of_nat (length (ads_classified UNKNOWN ads))
  ∧ (t.(converty_count) + t.(concurrent_count) + t.(unknown_count))%Z
    = Z.of_nat (length ads)
  ∧ NoDup (map fst t.(tally_competitors))
  ∧ (∀ d, counter_get t.(tally_competitors) d 0
          = Z.of_nat (length (ads_against d ads)))
  ∧ sum_by snd t.(tally_competitors) = t.(concurrent_count).

(** *** Notions used to follow the extractor step by step *)

Definition is_dict (v : PyVal) : bool :=
  match v with VDict _ => true | _ => false end.

Definition is_str (v : PyVal) : bool :=
  match v with VStr _ => true | _ => false end.

(** What the extractor appends for a record: its [link_url] when true. *)
Definition link_value (obj : PyVal) : list PyVal :=
  match obj with
  | VDict d =>
      let v := Py.dict_get d "link_url" VNone in
      if Py.truthy v then [v] else []
  | _ => []
  end.

(** The string of a value, empty for a value that is no string. *)
Definition text_str (v : PyVal) : string :=
  match v with VStr s => s | _ => EmptyString end.

Definition strings_of (l : list PyVal) : list string := map text_str l.

(** The first occurrences of the elements that are not in [seen]. *)
Fixpoint fresh_from (seen : gset string) (l : list string) : list string :=
  match l with
  | [] => []
  | x :: l' =>
      if bool_decide (x ∈ seen) then fresh_from seen l'
      else x :: fresh_from ({[ x ]} ∪ seen) l'
  end.

(** ** Sample ads *)
Module Sample.

(** Example 1 of the specification: the link is the owned storefront. *)
Definition owned_ad : PyVal :=
  VDict [("ad_archive_id", VStr "1001");
         ("snapshot", VDict [("link_url", VStr "https://tbshopp.com/buy")])].

(** Example 3: a platform redirect is the only candidate. *)
Definition redirect_ad : PyVal :=
  VDict [("ad_archive_id", VStr "1002");
         ("snapshot",
          VDict [("link_url", VStr "https://l.facebook.com/l.php?u=abc")])].

(** A platform link, then a carousel: a card that holds the owned domain
    in its path, a card of a rival shop. *)
Definition carousel_ad : PyVal :=
  VDict [("ad_archive_id", VStr "1003");
         ("snapshot",
          VDict [("link_url", VStr "https://www.facebook.com/somepage");
                 ("cards",
                  VList [VDict [("link_url",
                                 VStr "https://Shop.example/TBSHOPP.com/page")];
                         VDict [("link_url", VStr "https://rivalshop.io/x")]])])].

(** A platform link, then a rival shop with a port. *)
Definition rival_ad : PyVal :=
  VDict [("ad_archive_id", VStr "1004");
         ("snapshot",
          VDict [("link_url", VStr "https://www.facebook.com/somepage");
                 ("cards",
                  VList [VDict [("link_url",
                                 VStr "https://www.RivalShop.io:8080/x")]])])].

(** A platform redirect whose query holds the owned domain. *)
Definition redirect_to_owned_ad : PyVal :=
  VDict [("snapshot",
          VDict [("link_url",
                  VStr "https://l.facebook.com/l.php?u=https://tbshopp.com/buy")])].

(** URLs in every source, with a duplicate and two spellings that differ
    in letter case only. *)
Definition wordy_ad : PyVal :=
  VDict [("snapshot",
          VDict [("link_url", VStr " http://A.com/. ");
                 ("cards", VList [VDict [("link_url", VStr "http://a.com/")];
                                  VDict [];
                                  VDict [("link_url", VStr "http://A.com/")]]);
                 ("caption", VStr "go http://c.com/x?y=1). now");
                 ("body", VDict [("text",
                                  VStr "see https://d.com, http://c.com/x?y=1")])])].


(** An ads client that knows one page. *)
Definition client : ApifyClient :=
  {| get_all_ads_by_page_id := fun page_id =>
       if String.eqb page_id "page-1"
       then [owned_ad; rival_ad; redirect_ad; rival_ad; carousel_ad]
       else [] |}.

Definition page : FbPage :=
  {| fb_page_id := "page-1"; fb_page_name := "Shop page" |}.

Definition no_analysis : PageAnalysis :=
  {| page_id := EmptyString; page_name := EmptyString;
     converty_domain := EmptyString; total_ads := 0; converty_ads := 0;
     concurrent_ads := 0; unknown_ads := 0; competitors := [];
     classified_ads := [] |}.

(** The analysis of that page for the owned domain [tbshopp.com]. *)
Definition analysis : PageAnalysis :=
  Eval vm_compute in
    match _analyze_page (H:=cpython) (H0:=client) page "tbshopp.com" with
    | Ok pa => pa
    | Raise _ => no_analysis
    end.

(** Example 5 of the specification: the competitor lists of two pages. *)
Definition page_with (cs : list Competitor) : PageAnalysis :=
  {| page_id := EmptyString; page_name := EmptyString;
     converty_domain := EmptyString; total_ads := 0; converty_ads := 0;
     concurrent_ads := 0; unknown_ads := 0; competitors := cs;
     classified_ads := [] |}.

Definition two_pages : list PageAnalysis :=
  [ page_with [{| domain := "x.com"; ads_count := 3 |}];
    page_with [{| domain := "x.com"; ads_count := 2 |};
               {| domain := "y.com"; ads_count := 1 |}] ].

End Sample.

(** ** [site_mapper.py]: [SiteMapper.map_client_sites] *)

(** The two collaborators of the mapper: the ads of the archive that point
    to a domain, and the advertiser pages of a list of ads with the number
    of ads of each. *)
Class AdsCollector := { collect_ads_for_domain : string -> list PyVal }.

Record ExtractedPage : Type := {
  extracted_page_id : string;
  extracted_page_name : string;
  extracted_ads_count : Z
}.

Class PageExtractor :=
  { extract_pages_from_ads : list PyVal -> list ExtractedPage }.

(** A page of a mapping: the extracted page with its ['confidence']. *)
Record PageMapping : Type := {
  mapping_page_id : string;
  mapping_page_name : string;
  mapping_ads_count : Z;
  mapping_confidence : Confidence
}.

(** The clock readings ['mapped_at'] and ['created_at'] are left out. *)
Record SiteMap : Type := {
  map_site : string;
  map_total_ads : Z;
  map_fb_pages : list PageMapping
}.

Record ClientData : Type := { data_client_id : string; data_sites : list string }.

Record ClientMapping : Type := {
  mapping_client_id : string;
  mapping_total_sites : Z;
  mapping_mappings : list SiteMap
}.

Section Mapper.
Context `{AdsCollector} `{PageExtractor}.

(** [for page in pages: page['confidence'] = ...]. *)
Fixpoint confidence_loop (pages : list ExtractedPage) (total : Z)
    : result (list PageMapping) :=
  match pages with
  | [] => Ok []
  | page :: pages' =>
      confidence ← _calculate_confidence page.(extracted_ads_count) total;
      pages' ← confidence_loop pages' total;
      Ok ({| mapping_page_id := page.(extracted_page_id);
             mapping_page_name := page.(extracted_page_name);
             mapping_ads_count := page.(extracted_ads_count);
             mapping_confidence := confidence |} :: pages')
  end.

(** The loop [for site in sites] of [map_client_sites]. *)
Fixpoint sites_mapping_loop (sites : list string) (mappings : list SiteMap)
    : result (list SiteMap) :=
  match sites with
  | [] => Ok mappings
  | site :: sites' =>
      let ads := collect_ads_for_domain site in
      let pages := extract_pages_from_ads ads in
      pages ← confidence_loop pages (Z.of_nat (length ads));
      let mapping := {| map_site := site;
                        map_total_ads := Z.of_nat (length ads);
                        map_fb_pages := pages |} in
      sites_mapping_loop sites' (mappings ++ [mapping])
  end.

Definition map_client_sites (client_data : ClientData)
    : result ClientMapping :=
  let client_id := client_data.(data_client_id) in
  let sites := client_data.(data_sites) in
  mappings ← sites_mapping_loop sites [];
  Ok {| mapping_client_id := client_id;
        mapping_total_sites := Z.of_nat (length sites);
        mapping_mappings := mappings |}.

End Mapper.

(** ** More vocabulary *)

(** The pages of a mapping in the order [analyze_client] visits them, each
    with the site it is mapped to. *)
Definition mapped_pages (mapping_data : MappingData) : list (string * FbPage) :=
  flat_map (fun site_mapping =>
              map (fun page => (site_mapping.(site), page))
                  site_mapping.(fb_pages))
           mapping_data.(mappings).

(** A page of a mapping is the extracted page with the confidence of its
    count against the total. *)
Definition maps_page (total : Z) (page : ExtractedPage) (mapped : PageMapping)
    : Prop :=
  mapped.(mapping_page_id) = page.(extracted_page_id)
  ∧ mapped.(mapping_page_name) = page.(extracted_page_name)
  ∧ mapped.(mapping_ads_count) = page.(extracted_ads_count)
  ∧ _calculate_confidence page.(extracted_ads_count) total
    = Ok mapped.(mapping_confidence).

(** The mapping of a site. *)
Definition maps_site `{AdsCollector} `{PageExtractor}
    (site : string) (mapping : SiteMap) : Prop :=
  let ads := collect_ads_for_domain site in
  mapping.(map_site) = site
  ∧ mapping.(map_total_ads) = Z.of_nat (length ads)
  ∧ Forall2 (maps_page (Z.of_nat (length ads)))
            (extract_pages_from_ads ads) mapping.(map_fb_pages).

(** The result for an ad without any URL. *)
Definition unknown_no_url : ClassificationResult :=
  {| classification := UNKNOWN; confidence := low; reason := reason_no_url;
     destination_url := None; competitor_domain := None |}.

(** The record [_analyze_page] files for an ad and its classification. *)
Definition files_as (ad : PyVal) (r : ClassificationResult) (c : ClassifiedAd)
    : Prop :=
  c.(ad_classification) = r.(classification)
  ∧ c.(ad_confidence) = r.(confidence)
  ∧ c.(ad_reason) = r.(reason)
  ∧ c.(ad_destination_url) = r.(destination_url)
  ∧ c.(ad_competitor_domain) = r.(competitor_domain)
  ∧ c.(ad_id) = default VNone (field ad "ad_archive_id")
  ∧ c.(ad_creation_time) = default VNone (field ad "ad_creation_time")
  ∧ c.(ad_delivery_start_time)
    = default VNone (field ad "ad_delivery_start_time").

(** A page competitor as an entry of the aggregated list. *)
Definition as_top (c : Competitor) : TopCompetitor :=
  {| top_domain := c.(domain); top_total_ads := c.(ads_count) |}.

(** ** More sample data *)
Module Sample2.

(** A body of plain text. *)
Definition plain_body_ad : PyVal :=
  VDict [("snapshot", VDict [("body", VStr "visit http://x.com/a now")])].


Definition collector : AdsCollector :=
  {| collect_ads_for_domain := fun site =>
       if String.eqb site "tbshopp.com"
       then [Sample.owned_ad; Sample.owned_ad; Sample.carousel_ad;
             Sample.owned_ad; Sample.owned_ad; Sample.owned_ad;
             Sample.owned_ad; Sample.owned_ad; Sample.owned_ad;
             Sample.owned_ad]
       else [] |}.

(** An extractor that finds two pages whenever there are ads. *)
Definition extractor : PageExtractor :=
  {| extract_pages_from_ads := fun ads =>
       match ads with
       | [] => []
       | _ => [ {| extracted_page_id := "page-1";
                   extracted_page_name := "Shop page";
                   extracted_ads_count := 8 |};
                {| extracted_page_id := "page-2";
                   extracted_page_name := "Other page";
                   extracted_ads_count := 2 |} ]
       end |}.

Definition client_data : ClientData :=
  {| data_client_id := "tbshopp";
     data_sites := ["tbshopp.com"; "empty.example"] |}.

Definition mapping_data : MappingData :=
  {| client_id := "tbshopp";
     mappings := [ {| site := "tbshopp.com"; fb_pages := [Sample.page] |} ] |}.

Definition no_report : Report :=
  {| report_client_id := EmptyString; analyzed_at := EmptyString;
     pages_analyzed := 0;
     global_stats := {| stats_total_ads := 0; stats_converty_ads := 0;
                        stats_concurrent_ads := 0; stats_unknown_ads := 0 |};
     top_competitors := []; page_details := [] |}.

Definition report : Report :=
  Eval vm_compute in
    match analyze_client (H:=cpython) (H0:=Sample.client) mapping_data
            "2026-01-01T00:00:00" with
    | Ok r => r
    | Raise _ => no_report
    end.

End Sample2.

(** * Properties *)

(** ** The domain classifier *)
Section ClassifierFacts.
Context `{UrlLib}.

Lemma append_cons (c : ascii) (s t : string) :
  String c s +:+ t = String c (s +:+ t).
Proof. reflexivity. Qed.

Lemma append_nil (t : string) : EmptyString +:+ t = t.
Proof. reflexivity. Qed.

(** [needle in hay] holds exactly when [hay] splits around [needle]. *)
Lemma prefix_split (p s : string) :
  String.prefix p s = true ↔ ∃ rest, s = p +:+ rest.
Proof.
  revert s; induction p as [|c p IH]; intros s.
  - destruct s; (split; [intros _; by eexists | done]).
  - destruct s as [|d s]; simpl; [split; [done | intros [? ?]; done]|].
    setoid_rewrite append_cons.
    destruct (Ascii.ascii_dec c d) as [->|Hne].
    + rewrite IH. split; intros [r Hr]; exists r; by simplify_eq.
    + split; [done | intros [r Hr]; by simplify_eq].
Qed.

Lemma contains_split (needle hay : string) :
  Py.contains needle hay = true ↔
  ∃ before after, hay = before +:+ needle +:+ after.
Proof.
  induction hay as [|c hay IH].
  - change (Py.contains needle EmptyString)
      with (String.prefix needle EmptyString || false).
    rewrite orb_false_r, prefix_split. split.
    + intros [r Hr]. by exists EmptyString, r.
    + intros [[|? ?] [t Ht]]; [by exists t | done].
  - change (Py.contains needle (String c hay))
      with (String.prefix needle (String c hay) || Py.contains needle hay).
    rewrite orb_true_iff, prefix_split, IH. split.
    + intros [[r Hr] | (b & a & ->)].
      * by exists EmptyString, r.
      * by exists (String c b), a.
    + intros [[|d b] [t Ht]].
      * left. by exists t.
      * right. exists b, t. rewrite append_cons in Ht. by simplify_eq.
Qed.

(** A host returned by [_extract_domain] is never the empty string. *)
Lemma _extract_domain_nonempty (url host : string) :
  _extract_domain url = Some host → Py.nonempty host = true.
Proof.
  unfold _extract_domain. intros Hd.
  destruct (urlparse_netloc _) as [d|]; [|done].
  destruct (negb (Py.nonempty d)); [done|].
  by repeat case_match; simplify_eq.
Qed.

(** What holds of host extraction: the scheme defaults to [http://], and
    a host that is returned is in lower case and stops before the first
    colon. *)
Lemma _extract_domain_default_scheme url :
  Py.startswith url "http://" = false →
  Py.startswith url "https://" = false →
  _extract_domain url = _extract_domain ("http://" +:+ url).
Proof.
  intros H1 H2. unfold _extract_domain. rewrite H1, H2.
  replace (Py.startswith ("http://" +:+ url) "http://") with true; [done|].
  symmetry. apply prefix_split. by eexists.
Qed.

Lemma lower_char_idem c : is_lower (Py.lower_char c) = true.
Proof. by destruct c as [[] [] [] [] [] [] [] []]. Qed.

Lemma lower_is_lower s : all_chars is_lower (Py.lower s) = true.
Proof. induction s as [|c s IH]; simpl; [done|]. by rewrite lower_char_idem. Qed.

Lemma all_chars_lower_fixed s : all_chars is_lower s = true → Py.lower s = s.
Proof.
  induction s as [|c s IH]; simpl; [done|].
  intros [Hc Hs]%andb_true_iff. apply Ascii.eqb_eq in Hc. by rewrite Hc, IH.
Qed.

Lemma replace_from_all_chars p old s skip :
  all_chars p s = true →
  all_chars p (Py.replace_from old EmptyString s skip) = true.
Proof.
  revert skip; induction s as [|c s IH]; intros skip;
    cbn [Py.replace_from all_chars]; [done|].
  intros [Hc Hs]%andb_true_iff. destruct skip; [|by apply IH].
  destruct (String.prefix old (String c s)).
  - rewrite append_nil. by apply IH.
  - cbn [all_chars]. by rewrite Hc, IH.
Qed.

Lemma split_head_all_chars p sep s :
  all_chars p s = true → all_chars p (Py.split_head sep s) = true.
Proof.
  induction s as [|c s IH]; simpl; [done|].
  intros [Hc Hs]%andb_true_iff. destruct (Ascii.eqb c sep); [done|].
  simpl. by rewrite Hc, IH.
Qed.

Lemma split_head_no_sep sep s :
  Py.contains (String sep EmptyString) (Py.split_head sep s) = false.
Proof.
  induction s as [|c s IH]; simpl; [done|].
  destruct (Ascii.eqb_spec c sep) as [->|Hne]; [done|].
  change (Py.contains (String sep EmptyString) (String c (Py.split_head sep s)))
    with (String.prefix (String sep EmptyString) (String c (Py.split_head sep s))
          || Py.contains (String sep EmptyString) (Py.split_head sep s)).
  rewrite IH, orb_false_r. simpl.
  destruct (Ascii.ascii_dec sep c); [congruence | done].
Qed.

Lemma _extract_domain_shape url host :
  _extract_domain url = Some host →
  Py.lower host = host ∧ Py.contains ":" host = false.
Proof.
  unfold _extract_domain.
  destruct (urlparse_netloc _) as [d|]; [|done].
  destruct (negb (Py.nonempty d)); [done|].
  pose proof (replace_from_all_chars is_lower "www." (Py.lower d) 0
                (lower_is_lower d)) as Hlow.
  fold (Py.replace "www." EmptyString (Py.lower d)) in Hlow.
  destruct (Py.contains ":" (Py.replace "www." EmptyString (Py.lower d)))
    eqn:Hcolon.
  - destruct (Py.nonempty _); [|done]. intros [= <-].
    split; [|apply (split_head_no_sep ":")].
    by apply all_chars_lower_fixed, split_head_all_chars.
  - destruct (Py.nonempty _); [|done]. intros [= <-].
    split; [by apply all_chars_lower_fixed | done].
Qed.

(** One turn of the loop, by cases on the candidate. *)
Lemma classify_loop_mentions d url urls :
  mentions d url = true →
  classify_loop d (url :: urls)
  = Some {| classification := CONVERTY; confidence := high;
            reason := reason_converty d; destination_url := Some url;
            competitor_domain := None |}.
Proof. unfold mentions. simpl. by intros ->. Qed.

Lemma classify_loop_skipped d url urls :
  skipped d url = true →
  classify_loop d (url :: urls) = classify_loop d urls.
Proof.
  unfold skipped, mentions, host_skipped. simpl.
  intros [Hm Hs]%andb_true_iff. apply negb_true_iff in Hm. rewrite Hm.
  destruct (_extract_domain url) as [host|]; [|done].
  rewrite Hs. by destruct (negb (Py.nonempty host)).
Qed.

Lemma classify_loop_competitor d url urls host :
  mentions d url = false →
  _extract_domain url = Some host →
  _is_ignored_domain host = false →
  classify_loop d (url :: urls)
  = Some {| classification := CONCURRENT; confidence := high;
            reason := reason_concurrent host; destination_url := Some url;
            competitor_domain := Some host |}.
Proof.
  unfold mentions. simpl. intros -> Hd Hi. rewrite Hd, Hi.
  by rewrite (_extract_domain_nonempty _ _ Hd).
Qed.

Lemma classify_loop_skip_prefix d pre urls :
  Forall (fun u => skipped d u = true) pre →
  classify_loop d (pre ++ urls) = classify_loop d urls.
Proof.
  induction 1 as [|u pre Hu _ IH]; [done|].
  by rewrite <- app_comm_cons, classify_loop_skipped.
Qed.

(** The loop falls through exactly when every candidate is skipped;
    what it returns otherwise is SELF or COMPETITOR. *)
Lemma classify_loop_None d urls :
  classify_loop d urls = None ↔ Forall (fun u => skipped d u = true) urls.
Proof.
  induction urls as [|u urls IH].
  - split; [constructor | done].
  - destruct (skipped d u) eqn:Hs.
    + rewrite classify_loop_skipped, IH by done.
      split; [by constructor | by inversion 1].
    + split; [|inversion 1; congruence].
      unfold skipped, host_skipped, mentions in Hs. simpl.
      destruct (Py.contains _ _); [done|]. simpl in Hs.
      destruct (_extract_domain u) as [host|] eqn:Hd; [|done].
      rewrite Hs, (_extract_domain_nonempty _ _ Hd). done.
Qed.

Lemma classify_loop_Some d urls r :
  classify_loop d urls = Some r →
  (r.(classification) = CONVERTY ∧ r.(competitor_domain) = None)
  ∨ (r.(classification) = CONCURRENT
     ∧ ∃ host, r.(competitor_domain) = Some host
               ∧ Py.nonempty host = true
               ∧ _is_ignored_domain host = false).
Proof.
  induction urls as [|u urls IH]; [done|]. simpl.
  destruct (Py.contains _ _).
  - intros [= <-]. by left.
  - destruct (_extract_domain u) as [host|] eqn:Hd; [|done].
    destruct (negb (Py.nonempty host)) eqn:Hn; [done|].
    destruct (_is_ignored_domain host) eqn:Hi; [done|].
    intros [= <-]. right. split; [done|]. exists host.
    by apply negb_false_iff in Hn.
Qed.

(** The two kinds of result: without a competitor domain, or COMPETITOR
    with one. *)
Lemma classify_urls_cases urls d :
  let r := classify_urls urls d in
  (r.(classification) = CONVERTY ∨ r.(classification) = UNKNOWN)
  ∧ r.(competitor_domain) = None
  ∨ r.(classification) = CONCURRENT
    ∧ ∃ host, r.(competitor_domain) = Some host ∧ Py.nonempty host = true.
Proof.
  unfold classify_urls. destruct urls as [|u urls].
  { left. split; [by right | done]. }
  destruct (classify_loop d (u :: urls)) as [r|] eqn:Hl.
  - apply classify_loop_Some in Hl as [[? ?] | (? & h & ? & ? & _)].
    + left. split; [by left | done].
    + right. split; [done | by exists h].
  - left. split; [by right | done].
Qed.

Lemma classify_ad_Ok ad d r :
  classify_ad ad d = Ok r ↔
  ∃ urls, _extract_urls_from_ad ad = Ok urls ∧ r = classify_urls urls d.
Proof.
  unfold classify_ad. destruct (_extract_urls_from_ad ad) as [urls|e]; simpl.
  - split; [intros [= <-]; by exists urls | by intros (? & [= <-] & ->)].
  - split; [done | by intros (? & ? & _)].
Qed.

End ClassifierFacts.

Section ClassifierClaims.
Context `{UrlLib}.

(** C1.  The candidates are tried in extraction order.  When the loop
    reaches a URL that holds the owned domain as a substring, letter case
    aside and wherever in the URL (every earlier candidate having been
    skipped), [classify_ad] answers SELF ([CONVERTY]) with confidence high
    and that URL as destination, whatever the later candidates are. *)
Theorem classify_self_on_first_mention ad d pre url post :
  _extract_urls_from_ad ad = Ok (pre ++ url :: post) →
  Forall (fun u => skipped d u = true) pre →
  (∃ before after, Py.lower url = before +:+ Py.lower d +:+ after) →
  classify_ad ad d
  = Ok {| classification := CONVERTY; confidence := high;
          reason := reason_converty d; destination_url := Some url;
          competitor_domain := None |}.
Proof.
  intros Hurls Hpre Hin. apply contains_split in Hin.
  apply classify_ad_Ok. eexists; split; [done|].
  unfold classify_urls.
  rewrite classify_loop_skip_prefix, classify_loop_mentions by done.
  by destruct pre.
Qed.

(** C2, amended.  A candidate that does not hold the owned domain and
    whose host is on the ignore list is skipped.  The first candidate
    whose host is extracted and is not ignored yields COMPETITOR
    ([CONCURRENT]) with confidence high, that host and that URL, provided
    neither it nor an earlier candidate holds the owned domain.  A
    competitor domain that [classify_ad] returns contains no entry of the
    ignore list. *)
Theorem classify_competitor_on_first_commercial_host ad d :
  (∀ url urls host,
     mentions d url = false →
     _extract_domain url = Some host →
     _is_ignored_domain host = true →
     classify_loop d (url :: urls) = classify_loop d urls)
  ∧ (∀ pre url post host,
       _extract_urls_from_ad ad = Ok (pre ++ url :: post) →
       Forall (fun u => mentions d u = false ∧ host_skipped u = true) pre →
       mentions d url = false →
       _extract_domain url = Some host →
       _is_ignored_domain host = false →
       classify_ad ad d
       = Ok {| classification := CONCURRENT; confidence := high;
               reason := reason_concurrent host;
               destination_url := Some url;
               competitor_domain := Some host |})
  ∧ (∀ r host,
       classify_ad ad d = Ok r →
       r.(competitor_domain) = Some host →
       Forall (fun ignored => Py.contains ignored (Py.lower host) = false)
              IGNORED_DOMAINS).
Proof.
  split; [|split].
  - intros url urls host Hm Hd Hi. apply classify_loop_skipped.
    unfold skipped, host_skipped. by rewrite Hm, Hd, Hi.
  - intros pre url post host Hurls Hpre Hm Hd Hi.
    apply classify_ad_Ok. eexists; split; [done|].
    unfold classify_urls. rewrite classify_loop_skip_prefix.
    + rewrite (classify_loop_competitor _ _ _ host) by done. by destruct pre.
    + eapply Forall_impl; [exact Hpre|]. intros u [Hu1 Hu2].
      unfold skipped. by rewrite Hu1, Hu2.
  - intros r host (urls & _ & ->)%classify_ad_Ok Hc.
    assert (_is_ignored_domain host = false) as Hi.
    { unfold classify_urls in Hc. destruct urls as [|u urls]; [done|].
      destruct (classify_loop d (u :: urls)) as [r|] eqn:Hl; [|done].
      apply classify_loop_Some in Hl as [[_ ?] | (_ & h & ? & _ & ?)];
        congruence. }
    unfold _is_ignored_domain in Hi.
    apply Forall_forall. intros ignored Hin.
    destruct (Py.contains ignored (Py.lower host)) eqn:Hc'; [|done].
    assert (existsb (fun i => Py.contains i (Py.lower host)) IGNORED_DOMAINS
            = true); [|congruence].
    apply existsb_exists. exists ignored. by rewrite <- list_elem_of_In.
Qed.

(** C3.  [classify_ad] answers UNKNOWN exactly when every candidate is
    skipped (none yields SELF or COMPETITOR): with confidence low and no
    destination when no URL was extracted, with confidence medium and the
    first extracted candidate as destination otherwise. *)
Theorem classify_unknown_when_all_skipped ad d urls :
  _extract_urls_from_ad ad = Ok urls →
  ∃ r, classify_ad ad d = Ok r
       ∧ (r.(classification) = UNKNOWN
          ↔ Forall (fun u => skipped d u = true) urls)
       ∧ (r.(classification) = UNKNOWN →
          match urls with
          | [] => r = {| classification := UNKNOWN; confidence := low;
                         reason := reason_no_url; destination_url := None;
                         competitor_domain := None |}
          | first :: _ =>
              r = {| classification := UNKNOWN; confidence := medium;
                     reason := reason_no_commercial;
                     destination_url := Some first;
                     competitor_domain := None |}
          end).
Proof.
  intros Hurls. exists (classify_urls urls d).
  split; [apply classify_ad_Ok; by exists urls|].
  unfold classify_urls. destruct urls as [|u urls].
  { split; [done|]. done. }
  destruct (classify_loop d (u :: urls)) as [r|] eqn:Hl.
  - pose proof (classify_loop_Some _ _ _ Hl) as Hr.
    assert (r.(classification) ≠ UNKNOWN) as Hne
      by (destruct Hr as [[-> _] | [-> _]]; done).
    split; [split; [done|] | done].
    intros Hall%classify_loop_None. congruence.
  - apply classify_loop_None in Hl. done.
Qed.

(** C9.  In a result of [classify_ad] the competitor domain is present
    exactly when the classification is COMPETITOR ([CONCURRENT]); it is
    then a non-empty string, and SELF and UNKNOWN results carry none. *)
Theorem competitor_domain_iff_competitor ad d r :
  classify_ad ad d = Ok r →
  (is_Some r.(competitor_domain) ↔ r.(classification) = CONCURRENT)
  ∧ (∀ host, r.(competitor_domain) = Some host → Py.nonempty host = true)
  ∧ (r.(classification) = CONVERTY ∨ r.(classification) = UNKNOWN →
     r.(competitor_domain) = None).
Proof.
  intros (urls & _ & ->)%classify_ad_Ok.
  assert (∀ r, (r.(classification) = CONVERTY ∨ r.(classification) = UNKNOWN)
               ∧ r.(competitor_domain) = None
             ∨ r.(classification) = CONCURRENT
               ∧ (∃ host, r.(competitor_domain) = Some host
                          ∧ Py.nonempty host = true) →
          (is_Some r.(competitor_domain) ↔ r.(classification) = CONCURRENT)
          ∧ (∀ host, r.(competitor_domain) = Some host
                     → Py.nonempty host = true)
          ∧ (r.(classification) = CONVERTY ∨ r.(classification) = UNKNOWN
             → r.(competitor_domain) = None)) as Hcases.
  { intros r [[Hc Hn] | [Hc (host & Hs & Hh)]].
    - rewrite Hn. split; [|split]; [|done|done].
      split; [by intros [? ?] | intros ?; destruct Hc; congruence].
    - rewrite Hs, Hc. split; [|split]; [done | by intros ? [= <-] |].
      by intros [?|?]. }
  apply Hcases, classify_urls_cases.
Qed.

End ClassifierClaims.

(** ** The URL extractor *)
Section ExtractorFacts.

Lemma dict_get_lookup d key dflt :
  Py.dict_get d key dflt = default dflt (dict_lookup d key).
Proof.
  induction d as [|[k v] d IH]; simpl; [done|]. by destruct (String.eqb k key).
Qed.

(** *** Deduplication *)

Lemma filter_filter_absorb {A} (P Q : A → Prop)
    `{∀ x, Decision (P x)} `{∀ x, Decision (Q x)} (l : list A) :
  (∀ x, P x → Q x) → filter P (filter Q l) = filter P l.
Proof.
  intros HPQ. rewrite list_filter_filter. apply list_filter_iff. naive_solver.
Qed.

Lemma filter_comm {A} (P Q : A → Prop)
    `{∀ x, Decision (P x)} `{∀ x, Decision (Q x)} (l : list A) :
  filter P (filter Q l) = filter Q (filter P l).
Proof.
  rewrite !list_filter_filter. apply list_filter_iff. naive_solver.
Qed.

Lemma first_occurrences_filter (P : string → Prop) `{∀ x, Decision (P x)} l :
  first_occurrences (filter P l) = filter P (first_occurrences l).
Proof.
  induction l as [|x l IH]; [done|]. simpl.
  rewrite filter_cons. destruct (decide (P x)) as [HP|HP]; simpl.
  - rewrite filter_cons_True by done. by rewrite IH, filter_comm.
  - rewrite filter_cons_False by done. rewrite IH.
    symmetry. apply filter_filter_absorb. congruence.
Qed.

Lemma elem_of_first_occurrences x l :
  x ∈ first_occurrences l ↔ x ∈ l.
Proof.
  induction l as [|y l IH]; [done|]. simpl.
  rewrite !elem_of_cons, list_elem_of_filter, IH.
  destruct (decide (x = y)); naive_solver.
Qed.

Lemma NoDup_first_occurrences l : NoDup (first_occurrences l).
Proof.
  induction l as [|y l IH]; simpl; [constructor|].
  constructor; [|by apply NoDup_filter].
  rewrite list_elem_of_filter. naive_solver.
Qed.


Lemma fresh_from_filter seen l :
  fresh_from seen l = filter (fun x => x ∉ seen) (first_occurrences l).
Proof.
  revert seen; induction l as [|x l IH]; intros seen; [done|]. simpl.
  rewrite filter_cons. case_bool_decide as Hx.
  - rewrite decide_False by naive_solver. rewrite IH.
    symmetry. apply filter_filter_absorb. set_solver.
  - rewrite decide_True by done. f_equal. rewrite IH.
    rewrite list_filter_filter. apply list_filter_iff. set_solver.
Qed.

Lemma fresh_from_empty l : fresh_from ∅ l = first_occurrences l.
Proof.
  rewrite fresh_from_filter.
  induction (first_occurrences l) as [|x l' IH]; [done|].
  rewrite filter_cons_True by set_solver. by rewrite IH.
Qed.

(** *** The steps of [_extract_urls_from_ad] *)

Lemma cards_loop_eq cards urls :
  cards_loop cards urls
  = if forallb is_dict cards
    then Ok (urls ++ flat_map link_value cards)
    else Raise AttributeError.
Proof.
  revert urls; induction cards as [|card cards IH]; intros urls; simpl.
  - by rewrite app_nil_r.
  - destruct card; simpl; try done. rewrite IH.
    destruct (forallb is_dict cards); [|done].
    destruct (Py.truthy _); by rewrite <- ?app_assoc.
Qed.

Lemma findall_urls_empty : Py.findall_urls EmptyString = [].
Proof. reflexivity. Qed.

Lemma extend_found_eq urls text :
  extend_found urls text
  = if str_or_falsy text
    then Ok (urls ++ map VStr (Py.findall_urls (text_str text)))
    else Raise TypeError.
Proof.
  unfold extend_found.
  destruct text as [|b|z|s|l|d]; simpl; rewrite ?app_nil_r; try done.
  - by destruct b.
  - by destruct (negb (z =? 0)%Z).
  - by destruct s; simpl; rewrite ?app_nil_r.
  - by destruct l.
  - by destruct d.
Qed.

Lemma unique_loop_eq vs unique_urls seen :
  unique_loop vs unique_urls seen
  = if forallb is_str vs
    then Ok (unique_urls ++ fresh_from seen (cleaned (strings_of vs)))
    else Raise AttributeError.
Proof.
  revert unique_urls seen; induction vs as [|v vs IH]; intros acc seen; simpl.
  - by rewrite app_nil_r.
  - destruct v as [| | |url| |]; simpl; try done.
    unfold cleaned, strings_of in *. simpl.
    rewrite filter_cons. destruct (Py.nonempty (clean_url url)) eqn:Hn; simpl.
    + case_bool_decide; simpl.
      * apply IH.
      * rewrite IH. destruct (forallb is_str vs); [|done].
        by rewrite <- app_assoc.
    + apply IH.
Qed.

End ExtractorFacts.

Section ExtractorSteps.

Lemma cleaned_app l1 l2 : cleaned (l1 ++ l2) = cleaned l1 ++ cleaned l2.
Proof. unfold cleaned. by rewrite map_app, filter_app. Qed.

Lemma strings_of_app l1 l2 :
  strings_of (l1 ++ l2) = strings_of l1 ++ strings_of l2.
Proof. apply map_app. Qed.

Lemma strings_of_VStr l : strings_of (map VStr l) = l.
Proof. unfold strings_of. rewrite map_map. apply map_id. Qed.

Lemma forallb_is_str_VStr l : forallb is_str (map VStr l) = true.
Proof. by induction l. Qed.

(** A truthy [link_url] passes the closing loop exactly when it is a
    string; the extractor and the specification then agree on it. *)
Lemma link_value_str d :
  forallb is_str (link_value (VDict d)) = card_ok (VDict d).
Proof.
  unfold link_value, card_ok.
  destruct (Py.dict_get d "link_url" VNone) as [|b|z|s|l|d']; simpl; try done.
  - by destruct b.
  - by destruct (negb (z =? 0)%Z).
  - by destruct s.
  - by destruct l.
  - by destruct d'.
Qed.

Lemma link_value_cleaned d :
  card_ok (VDict d) = true →
  cleaned (strings_of (link_value (VDict d))) = cleaned (link_of (VDict d)).
Proof.
  unfold link_value, card_ok, link_of, field. rewrite dict_get_lookup.
  destruct (dict_lookup d "link_url") as [[|b|z|s|l|d']|]; simpl; try done.
  - by destruct b.
  - by destruct (negb (z =? 0)%Z).
  - by destruct s.
  - by destruct l.
  - by destruct d'.
Qed.

Lemma cards_str cards :
  forallb is_dict cards = true →
  forallb is_str (flat_map link_value cards) = forallb card_ok cards.
Proof.
  induction cards as [|card cards IH]; [done|]. simpl.
  intros [Hd Hds]%andb_true_iff. rewrite forallb_app, IH by done.
  destruct card; try done. by rewrite link_value_str.
Qed.

Lemma card_ok_is_dict cards :
  forallb card_ok cards = true → forallb is_dict cards = true.
Proof.
  induction cards as [|card cards IH]; [done|]. simpl.
  intros [Hd Hds]%andb_true_iff. rewrite IH by done. by destruct card.
Qed.

Lemma cards_cleaned cards :
  forallb card_ok cards = true →
  cleaned (strings_of (flat_map link_value cards))
  = cleaned (flat_map link_of cards).
Proof.
  induction cards as [|card cards IH]; [done|]. simpl.
  intros [Hd Hds]%andb_true_iff.
  rewrite strings_of_app, !cleaned_app, IH by done.
  destruct card; try done. by rewrite link_value_cleaned.
Qed.

Lemma iter_cases (o : option PyVal) :
  match Py.iter (default (VList []) o) with
  | Ok cards =>
      if forallb is_dict cards
      then cards = match o with Some (VList l) => l | _ => [] end
           ∧ cards_ok (default (VList []) o) = forallb card_ok cards
      else cards_ok (default (VList []) o) = false
  | Raise _ => cards_ok (default (VList []) o) = false
  end.
Proof.
  destruct o as [[|b|z|s|l|d]|]; simpl; try done.
  - by destruct s.
  - destruct (forallb is_dict l) eqn:Hd; [done|].
    destruct (forallb card_ok l) eqn:Hc; [|done].
    apply card_ok_is_dict in Hc. congruence.
  - by destruct d.
Qed.

Lemma body_cases (o : option PyVal) :
  let body := default (VDict []) o in
  ∃ body_text,
    match body with
    | VDict _ => Py.get body "text" (VStr EmptyString)
    | _ => Ok (VStr (PyStr.str body))
    end = Ok body_text
    ∧ body_ok body = str_or_falsy body_text
    ∧ text_str body_text
      = match o with
        | None => EmptyString
        | Some (VDict b) => text_of (field (VDict b) "text")
        | Some (VStr text) => text
        | Some body => PyStr.str body
        end.
Proof.
  destruct o as [[|b|z|s|l|d]|]; simpl; try (by eexists).
  eexists; split; [done|]. split; [done|].
  rewrite dict_get_lookup. by destruct (dict_lookup d "text") as [[]|].
Qed.

Lemma text_str_default (o : option PyVal) :
  text_str (default (VStr EmptyString) o) = text_of o.
Proof. by destruct o as [[]|]. Qed.

(** The extractor returns normally exactly on the well-shaped ads, and
    then returns what the specification describes. *)
Lemma extract_urls_characterised ad :
  match _extract_urls_from_ad ad with
  | Ok urls => well_shaped ad = true ∧ urls = extractUrls ad
  | Raise _ => well_shaped ad = false
  end.
Proof.
  destruct ad as [| | | | |a]; try done.
  unfold _extract_urls_from_ad, well_shaped, extractUrls, candidates.
  cbn [Py.get mbind result_bind field]. rewrite dict_get_lookup.
  destruct (default (VDict []) (dict_lookup a "snapshot"))
    as [| | | | |s]; try done.
  unfold snapshot_ok, cards_of, body_text_of.
  cbn [Py.get mbind result_bind field].
  change (if Py.truthy (Py.dict_get s "link_url" VNone)
          then [] ++ [Py.dict_get s "link_url" VNone] else [])
    with (link_value (VDict s)).
  change (str_or_falsy (Py.dict_get s "link_url" VNone))
    with (card_ok (VDict s)).
  rewrite (dict_get_lookup s "cards"), (dict_get_lookup s "caption"),
    (dict_get_lookup s "body").
  pose proof (iter_cases (dict_lookup s "cards")) as Hcards.
  destruct (Py.iter _) as [cards|e]; cbn [mbind result_bind];
    [|by rewrite Hcards, andb_false_r].
  rewrite cards_loop_eq.
  destruct (forallb is_dict cards) eqn:Hdicts; cbn [mbind result_bind];
    [|by rewrite Hcards, andb_false_r].
  destruct Hcards as [<- ->].
  rewrite extend_found_eq.
  destruct (str_or_falsy (default _ (dict_lookup s "caption"))) eqn:Hcap;
    cbn [mbind result_bind]; [|by rewrite andb_false_r].
  destruct (body_cases (dict_lookup s "body")) as (bt & -> & -> & Hbt).
  cbn [mbind result_bind]. rewrite extend_found_eq.
  destruct (str_or_falsy bt) eqn:Hbody; cbn [mbind result_bind];
    [|by rewrite andb_false_r].
  rewrite unique_loop_eq, !forallb_app, !forallb_is_str_VStr.
  rewrite link_value_str, cards_str by done. rewrite !andb_true_r.
  destruct (card_ok (VDict s)) eqn:Hlink; [|done].
  destruct (forallb card_ok cards) eqn:Hcok; [|done].
  split; [done|]. rewrite app_nil_l.
  rewrite fresh_from_empty. f_equal.
  rewrite !strings_of_app, !cleaned_app, !strings_of_VStr.
  rewrite link_value_cleaned, cards_cleaned by done.
  rewrite text_str_default, Hbt. by rewrite <- !app_assoc.
Qed.
End ExtractorSteps.

(** ** The built-ins at work in the extractor *)
Section BuiltinFacts.

Lemma append_assoc (a b c : string) : (a +:+ b) +:+ c = a +:+ b +:+ c.
Proof. induction a as [|x a IH]; [done|]. by rewrite !append_cons, IH. Qed.

Lemma lstrip_by_spec p s :
  ∃ pre, s = pre +:+ Py.lstrip_by p s
         ∧ all_chars p pre = true
         ∧ starts_with p (Py.lstrip_by p s) = false.
Proof.
  induction s as [|c s (pre & Hs & Hp & Hn)]; simpl.
  - by exists EmptyString.
  - destruct (p c) eqn:Hc.
    + exists (String c pre). rewrite append_cons, <- Hs. simpl.
      by rewrite Hc, Hp.
    + exists EmptyString. simpl. by rewrite Hc.
Qed.

Lemma rstrip_by_spec p s :
  ∃ suf, s = Py.rstrip_by p s +:+ suf
         ∧ all_chars p suf = true
         ∧ ends_with p (Py.rstrip_by p s) = false.
Proof.
  induction s as [|c s (suf & Hs & Hp & Hn)]; simpl.
  - by exists EmptyString.
  - destruct (Py.rstrip_by p s) as [|d r]; simpl.
    + rewrite append_nil in Hs. subst suf. destruct (p c) eqn:Hc.
      * exists (String c s). simpl. by rewrite Hc, Hp.
      * exists s. simpl. by rewrite Hc.
    + exists suf. by rewrite append_cons, <- Hs.
Qed.

Lemma starts_with_prefix p a b :
  starts_with p (a +:+ b) = false → starts_with p a = false.
Proof. by destruct a. Qed.

Lemma append_nil_r (s : string) : s +:+ EmptyString = s.
Proof. induction s as [|c s IH]; [done|]. by rewrite append_cons, IH. Qed.

Lemma all_chars_app p a b :
  all_chars p (a +:+ b) = all_chars p a && all_chars p b.
Proof.
  induction a as [|c a IH]; [done|].
  rewrite append_cons. simpl. by rewrite IH, andb_assoc.
Qed.

Lemma lstrip_by_all p a x :
  all_chars p a = true → Py.lstrip_by p (a +:+ x) = Py.lstrip_by p x.
Proof.
  induction a as [|c a IH]; [done|]. rewrite append_cons. simpl.
  intros [-> Ha]%andb_prop. by apply IH.
Qed.

Lemma lstrip_by_fixed p x :
  starts_with p x = false → Py.lstrip_by p x = x.
Proof. destruct x as [|c x]; [done|]. simpl. by intros ->. Qed.

Lemma rstrip_by_all p b : all_chars p b = true → Py.rstrip_by p b = EmptyString.
Proof.
  induction b as [|c b IH]; [done|]. simpl.
  intros [Hc Hb]%andb_prop. by rewrite IH, Hc.
Qed.

Lemma rstrip_by_app p x b :
  all_chars p b = true → ends_with p x = false →
  Py.rstrip_by p (x +:+ b) = x.
Proof.
  intros Hb. induction x as [|c x IH]; intros Hx.
  - by apply rstrip_by_all.
  - rewrite append_cons. cbn [Py.rstrip_by]. destruct x as [|d x].
    + rewrite append_nil, (rstrip_by_all _ _ Hb). simpl in *. by rewrite Hx.
    + rewrite IH by done. done.
Qed.

(** Trimming is what [clean_url] does, and nothing else is a trimming. *)
Lemma clean_url_trimmed url : trimmed url (clean_url url).
Proof.
  unfold clean_url, Py.strip, Py.rstrip.
  destruct (lstrip_by_spec Py.isspace url) as (ws1 & Hu & Hws1 & Hstart).
  destruct (rstrip_by_spec Py.isspace (Py.lstrip_by Py.isspace url))
    as (ws2 & Ha & Hws2 & Hend2).
  destruct (rstrip_by_spec (fun c => Py.char_in c ".,;:!?)")
              (Py.rstrip_by Py.isspace (Py.lstrip_by Py.isspace url)))
    as (punct & Hb & Hpunct & Hend).
  set (a := Py.lstrip_by Py.isspace url) in *.
  set (b := Py.rstrip_by Py.isspace a) in *.
  set (c := Py.rstrip_by _ b) in *.
  exists ws1, punct, ws2. split.
  { rewrite <- (append_assoc c punct ws2), <- Hb, <- Ha. exact Hu. }
  rewrite <- Hb. repeat split; try done.
  rewrite Ha in Hstart. by apply starts_with_prefix in Hstart.
Qed.

Lemma trimmed_clean_url url cleaned :
  trimmed url cleaned ↔ cleaned = clean_url url.
Proof.
  split; [|intros ->; apply clean_url_trimmed].
  intros (sb & punct & sa & -> & Hsb & Hpunct & Hsa & Hstart & Hend & Hclean).
  unfold clean_url, Py.strip, Py.rstrip.
  rewrite lstrip_by_all by done.
  rewrite <- append_assoc.
  assert (Py.rstrip_by Py.isspace
            (Py.lstrip_by Py.isspace ((cleaned +:+ punct) +:+ sa))
          = cleaned +:+ punct) as ->.
  { destruct (cleaned +:+ punct) as [|c core] eqn:Hcore.
    - rewrite append_nil, <- (append_nil_r sa).
      by rewrite lstrip_by_all by done.
    - rewrite append_cons, lstrip_by_fixed by done.
      rewrite <- append_cons. by apply rstrip_by_app. }
  symmetry. by apply rstrip_by_app.
Qed.

Lemma Forall2_trimmed l cs :
  Forall2 trimmed l cs ↔ cs = map clean_url l.
Proof.
  revert cs. induction l as [|u l IH]; intros cs.
  - split; [by intros ->%Forall2_nil_inv_l | intros ->; constructor].
  - split.
    + intros (c & cs' & ->%trimmed_clean_url & ->%IH & ->)%Forall2_cons_inv_l.
      done.
    + intros ->. simpl. constructor; [apply clean_url_trimmed | by apply IH].
Qed.

Lemma prefix_drop p s :
  String.prefix p s = true → s = p +:+ Py.drop (String.length p) s.
Proof.
  intros [rest ->]%prefix_split. f_equal.
  induction p as [|c p IH]; [by destruct rest | done].
Qed.





End BuiltinFacts.

(** ** All the occurrences of the pattern *)
Section OccurrenceFacts.

Lemma span_maximal p s :
  ∃ rest, s = Py.span p s +:+ rest
          ∧ all_chars p (Py.span p s) = true
          ∧ starts_with p rest = false.
Proof.
  induction s as [|c s (rest & Hs & Hp & Hr)]; simpl.
  - by exists EmptyString.
  - destruct (p c) eqn:Hc.
    + exists rest. rewrite append_cons, <- Hs. simpl. by rewrite Hc, Hp.
    + exists (String c s). by simpl.
Qed.

Lemma string_length_app a b :
  String.length (a +:+ b) = String.length a + String.length b.
Proof. induction a as [|c a IH]; [done|]. rewrite append_cons. simpl. lia. Qed.

Lemma drop_app a b : Py.drop (String.length a) (a +:+ b) = b.
Proof. induction a as [|c a IH]; [by destruct b | done]. Qed.

Lemma url_match_starts u rest : url_match u → starts_url (u +:+ rest).
Proof.
  intros (scheme & tail & -> & Hscheme & Hne & Hall).
  destruct tail as [|c tail]; [done|]. simpl in Hall.
  apply andb_prop in Hall as [Hc _].
  exists scheme, c, (tail +:+ rest). by rewrite append_assoc, append_cons.
Qed.

Lemma url_match_nonempty u : url_match u → ∃ c u', u = String c u'.
Proof.
  intros (scheme & tail & -> & [->| ->] & _); by eexists _, _.
Qed.

Lemma starts_url_nonempty : ¬ starts_url EmptyString.
Proof. intros (scheme & c & rest & Heq & [->| ->] & _); done. Qed.

(** One scheme of the pattern, tried at the start of [s]. *)
Lemma try_scheme_Some scheme s m :
  scheme = "http://" ∨ scheme = "https://" →
  (if String.prefix scheme s
   then if Py.nonempty (Py.span Py.url_char (Py.drop (String.length scheme) s))
        then Some (scheme +:+ Py.span Py.url_char
                                (Py.drop (String.length scheme) s))
        else None
   else None) = Some m →
  ∃ rest, s = m +:+ rest ∧ url_match m
          ∧ starts_with Py.url_char rest = false.
Proof.
  intros Hscheme. destruct (String.prefix scheme s) eqn:Hp; [|done].
  destruct (Py.nonempty _) eqn:Hn; [|done]. intros [= <-].
  destruct (span_maximal Py.url_char (Py.drop (String.length scheme) s))
    as (rest & Hrest & Hall & Hmax).
  exists rest. split; [|split; [by eexists _, _ | done]].
  rewrite append_assoc, <- Hrest. by apply prefix_drop.
Qed.

Lemma try_scheme_starts scheme c rest :
  (if String.prefix scheme (scheme +:+ String c rest)
   then if Py.nonempty (Py.span Py.url_char
                          (Py.drop (String.length scheme)
                                   (scheme +:+ String c rest)))
        then Some (scheme +:+ Py.span Py.url_char
                                (Py.drop (String.length scheme)
                                         (scheme +:+ String c rest)))
        else None
   else None) = None →
  Py.url_char c = false.
Proof.
  rewrite (proj2 (prefix_split scheme _)) by (by eexists).
  rewrite drop_app. simpl. by destruct (Py.url_char c).
Qed.

Lemma match_url_Some s m :
  Py.match_url s = Some m →
  ∃ rest, s = m +:+ rest ∧ url_match m
          ∧ starts_with Py.url_char rest = false.
Proof.
  unfold Py.match_url.
  destruct (if String.prefix "https://" s then _ else _) eqn:Hs.
  - intros [= <-]. apply (try_scheme_Some "https://"); [by right | done].
  - apply (try_scheme_Some "http://"). by left.
Qed.

Lemma match_url_None s : Py.match_url s = None → ¬ starts_url s.
Proof.
  unfold Py.match_url. intros Hm (scheme & c & rest & -> & Hscheme & Hc).
  destruct Hscheme as [-> | ->].
  - destruct (if String.prefix "https://" _ then _ else _); [done|].
    apply try_scheme_starts in Hm. congruence.
  - destruct (if String.prefix "https://" _ then _ else _) eqn:Hs; [done|].
    apply try_scheme_starts in Hs. congruence.
Qed.

Lemma findall_from_skip a rest :
  Py.findall_from (a +:+ rest) (String.length a) = Py.findall_from rest 0.
Proof. induction a as [|c a IH]; [done|]. by rewrite append_cons. Qed.

Lemma findall_from_match s m rest :
  Py.match_url s = Some m → s = m +:+ rest →
  Py.findall_from s 0 = m :: Py.findall_from rest 0.
Proof.
  intros Hm Hs.
  destruct (match_url_Some _ _ Hm) as (_ & _ & (c & m' & ->)%url_match_nonempty & _).
  rewrite Hs in Hm |- *. rewrite append_cons in Hm |- *.
  cbn [Py.findall_from]. rewrite Hm. f_equal.
  simpl. rewrite Nat.sub_0_r. apply findall_from_skip.
Qed.

(** A character in front that begins no occurrence changes nothing. *)
Lemma occurrences_cons c s l :
  ¬ starts_url (String c s) → occurrences s l → occurrences (String c s) l.
Proof.
  intros Hc Hl. destruct Hl as [text Hnone | gap u rest urls Hgap Hu Hmax Hrest].
  - apply occurrences_none. intros before after Heq.
    destruct before as [|d before].
    + rewrite append_nil in Heq. by subst.
    + rewrite append_cons in Heq. injection Heq as _ Heq. by eapply Hnone.
  - rewrite <- append_cons. apply occurrences_next; try done.
    intros before after Heq Hne. destruct before as [|d before].
    + rewrite append_nil in Heq. subst after. by rewrite append_cons.
    + rewrite append_cons in Heq. injection Heq as _ Heq. by eapply Hgap.
Qed.

Lemma findall_urls_occurrences text :
  occurrences text (Py.findall_urls text).
Proof.
  unfold Py.findall_urls.
  assert (∀ n text, String.length text ≤ n →
                    occurrences text (Py.findall_from text 0)) as Hind;
    [|by apply (Hind (String.length text))].
  clear text. induction n as [|n IH]; intros text Hlen.
  - destruct text; [|simpl in Hlen; lia].
    apply occurrences_none. intros before after Heq.
    destruct before, after; try done. apply starts_url_nonempty.
  - destruct text as [|c text].
    + apply occurrences_none. intros before after Heq.
      destruct before, after; try done. apply starts_url_nonempty.
    + destruct (Py.match_url (String c text)) as [m|] eqn:Hm.
      * destruct (match_url_Some _ _ Hm) as (rest & Hs & Hu & Hmax).
        rewrite (findall_from_match _ _ _ Hm Hs), Hs.
        rewrite <- (append_nil (m +:+ rest)).
        apply occurrences_next; try done.
        -- intros before after Heq Hne. by destruct before, after.
        -- apply IH. destruct (url_match_nonempty _ Hu) as (d & m' & ->).
           rewrite Hs, append_cons in Hlen. simpl in Hlen.
           rewrite string_length_app in Hlen. lia.
      * cbn [Py.findall_from]. rewrite Hm.
        apply occurrences_cons; [by apply match_url_None|].
        apply IH. simpl in Hlen. lia.
Qed.

Lemma string_app_eq a b c d :
  a +:+ b = c +:+ d →
  ∃ e, c = a +:+ e ∧ b = e +:+ d ∨ a = c +:+ e ∧ d = e +:+ b.
Proof.
  revert c. induction a as [|x a IH]; intros c Heq.
  - exists c. left. by rewrite !append_nil in *.
  - destruct c as [|y c].
    + exists (String x a). right. by rewrite !append_nil in *.
    + rewrite !append_cons in Heq. injection Heq as -> Heq.
      destruct (IH _ Heq) as (e & [[-> ->] | [-> ->]]); exists e;
        [left | right]; by rewrite append_cons.
Qed.

Lemma span_unique p t1 r1 t2 r2 :
  all_chars p t1 = true → all_chars p t2 = true →
  starts_with p r1 = false → starts_with p r2 = false →
  t1 +:+ r1 = t2 +:+ r2 → t1 = t2 ∧ r1 = r2.
Proof.
  revert t2. induction t1 as [|c t1 IH]; intros t2 H1 H2 Hr1 Hr2 Heq.
  - destruct t2 as [|d t2]; [by rewrite !append_nil in Heq|].
    rewrite append_nil, append_cons in Heq. subst r1. simpl in *.
    apply andb_prop in H2 as [? _]. congruence.
  - destruct t2 as [|d t2].
    + rewrite append_nil, append_cons in Heq. subst r2. simpl in *.
      apply andb_prop in H1 as [? _]. congruence.
    + rewrite !append_cons in Heq. injection Heq as -> Heq. simpl in *.
      apply andb_prop in H1 as [_ H1]. apply andb_prop in H2 as [_ H2].
      destruct (IH _ H1 H2 Hr1 Hr2 Heq) as [-> ->]. done.
Qed.

(** The longest occurrence at a place is one string. *)
Lemma longest_match_unique u1 r1 u2 r2 :
  url_match u1 → url_match u2 →
  starts_with Py.url_char r1 = false → starts_with Py.url_char r2 = false →
  u1 +:+ r1 = u2 +:+ r2 → u1 = u2 ∧ r1 = r2.
Proof.
  intros (s1 & t1 & -> & Hs1 & _ & Ht1) (s2 & t2 & -> & Hs2 & _ & Ht2)
    Hr1 Hr2 Heq.
  rewrite !append_assoc in Heq.
  destruct Hs1 as [-> | ->], Hs2 as [-> | ->];
    rewrite !append_cons, !append_nil in Heq; try congruence;
    (assert (t1 +:+ r1 = t2 +:+ r2) as Heq' by congruence;
     destruct (span_unique _ _ _ _ _ Ht1 Ht2 Hr1 Hr2 Heq') as [-> ->]; done).
Qed.

Lemma occurrences_unique text l1 l2 :
  occurrences text l1 → occurrences text l2 → l1 = l2.
Proof.
  intros H1. revert l2.
  induction H1 as [text Hnone | gap u rest urls Hgap Hu Hmax Hrest IH];
    intros l2 H2.
  - inversion H2 as [|gap u rest urls _ Hu _ _ Heq]; [done|]. subst.
    exfalso. apply (Hnone gap (u +:+ rest) eq_refl).
    by apply url_match_starts.
  - inversion H2 as [text' Hnone | gap' u' rest' urls' Hgap' Hu' Hmax' Hrest' Heq];
      subst.
    + exfalso. apply (Hnone gap (u +:+ rest) eq_refl).
      by apply url_match_starts.
    + destruct (string_app_eq _ _ _ _ Heq) as (e & [[Hg He] | [Hg He]]).
      * (* the second gap is no longer than the first *)
        destruct e as [|x e].
        -- rewrite append_nil in He. rewrite append_nil_r in Hg. subst gap.
           destruct (longest_match_unique _ _ _ _ Hu' Hu Hmax' Hmax He)
             as [-> ->].
           f_equal. by apply IH.
        -- exfalso. apply (Hgap gap' (String x e)); [done | done |].
           rewrite <- He. by apply url_match_starts.
      * destruct e as [|x e].
        -- rewrite append_nil in He. rewrite append_nil_r in Hg. subst gap'.
           destruct (longest_match_unique _ _ _ _ Hu' Hu Hmax' Hmax
                       (eq_sym He)) as [-> ->].
           f_equal. by apply IH.
        -- exfalso. apply (Hgap' gap (String x e)); [done | done |].
           rewrite <- He. by apply url_match_starts.
Qed.

(** [re.findall] returns all the occurrences, and nothing else does. *)
Lemma occurrences_findall text urls :
  occurrences text urls ↔ urls = Py.findall_urls text.
Proof.
  split.
  - intros Ho. apply (occurrences_unique text); [done|].
    apply findall_urls_occurrences.
  - intros ->. apply findall_urls_occurrences.
Qed.

(** The two wordings of the specification agree. *)
Lemma extracts_extractUrls ad urls :
  extracts ad urls ↔ urls = extractUrls ad.
Proof.
  unfold extracts, extractUrls, cleaned, candidates. split.
  - intros (ic & ib & ts & ->%occurrences_findall & ->%occurrences_findall
            & ->%Forall2_trimmed & ->).
    f_equal. apply list_filter_iff. intros url. by destruct url.
  - intros ->. eexists _, _, _.
    split; [by apply occurrences_findall|].
    split; [by apply occurrences_findall|].
    split; [by apply Forall2_trimmed|].
    f_equal. apply list_filter_iff. intros url. by destruct url.
Qed.

End OccurrenceFacts.

Section ExtractorClaims.
Context `{UrlLib}.








End ExtractorClaims.

(** ** The confidence of a page-to-site mapping *)
Section FloatFacts.
Local Open Scope Z_scope.

Lemma round_half_even_cases n d :
  0 < d →
  let q := n / d in
  let r := n mod d in
  n = d * q + r ∧ 0 ≤ r < d
  ∧ (Float.round_half_even n d = q ∧ (2 * r < d ∨ 2 * r = d ∧ Z.even q = true)
     ∨ Float.round_half_even n d = q + 1
       ∧ (d < 2 * r ∨ 2 * r = d ∧ Z.even q = false)).
Proof.
  intros Hd q r. split; [apply Z.div_mod; lia|].
  split; [apply Z.mod_pos_bound; lia|].
  unfold Float.round_half_even. fold q r.
  destruct (Z.ltb_spec (2 * r) d); [left; split; [done | by left]|].
  destruct (Z.ltb_spec d (2 * r)); [right; split; [done | by left]|].
  destruct (Z.even q) eqn:He; [left | right]; (split; [done | right; lia]).
Qed.

Lemma round_half_even_lower n d : 0 < d → n / d ≤ Float.round_half_even n d.
Proof.
  intros Hd.
  destruct (round_half_even_cases n d Hd) as (_ & _ & [[-> _]|[-> _]]); lia.
Qed.

Lemma round_half_even_upper n d c :
  0 < d → n ≤ c * d → Float.round_half_even n d ≤ c.
Proof.
  intros Hd Hn.
  destruct (round_half_even_cases n d Hd) as (Hq & Hr & Hcases).
  set (q := n / d) in *. set (r := n mod d) in *.
  assert (q ≤ c) by nia.
  destruct Hcases as [[-> _]|[-> Hup]]; [done|].
  destruct (decide (q = c)) as [->|]; [|lia].
  assert (r = 0) by nia. lia.
Qed.

Lemma even_succ_false q : Z.even q = true → Z.even (q + 1) = false.
Proof.
  intros He. rewrite Z.add_1_r, Z.even_succ, <- Z.negb_even, He. done.
Qed.

Lemma even_succ_true q : Z.even q = false → Z.even (q + 1) = true.
Proof.
  intros He. rewrite Z.add_1_r, Z.even_succ, <- Z.negb_even, He. done.
Qed.

(** Rounding reaches an integer [M] from the midpoint below [M] on, the
    midpoint included exactly when [M] is even. *)
Lemma round_half_even_ge n d M :
  0 < d →
  M ≤ Float.round_half_even n d
  ↔ if Z.even M then (2 * M - 1) * d ≤ 2 * n else (2 * M - 1) * d < 2 * n.
Proof.
  intros Hd.
  destruct (round_half_even_cases n d Hd) as (Hq & Hr & Hcases).
  set (q := n / d) in *. set (r := n mod d) in *.
  destruct (Z.lt_trichotomy M (q + 1)) as [Hlt | [-> | Hgt]].
  - assert (M ≤ q) as Hle by lia.
    assert (d * M ≤ d * q) by nia.
    split.
    + intros _. destruct (Z.even M); nia.
    + intros _. destruct Hcases as [[-> _]|[-> _]]; lia.
  - destruct Hcases as [[-> Hdown]|[-> Hup]].
    + split; [lia|]. intros Hm. exfalso.
      destruct Hdown as [?|[? He]].
      * destruct (Z.even (q + 1)); nia.
      * rewrite (even_succ_false _ He) in Hm. nia.
    + split; [|lia]. intros _.
      destruct Hup as [?|[? He]].
      * destruct (Z.even (q + 1)); nia.
      * rewrite (even_succ_true _ He). nia.
  - assert (q + 2 ≤ M) as Hle by lia.
    assert (d * (q + 2) ≤ d * M) by nia.
    split.
    + intros ?. destruct Hcases as [[Heq _]|[Heq _]]; rewrite Heq in *; lia.
    + intros Hm. exfalso. destruct (Z.even M); nia.
Qed.

Lemma div_lt_bound n b K : 0 < b → n / b < K → n < b * K.
Proof.
  intros Hb Hlt. pose proof (Z.div_mod n b ltac:(lia)).
  pose proof (Z.mod_pos_bound n b Hb). nia.
Qed.

Lemma div_ge_bound n b K : 0 < b → K ≤ n / b → b * K ≤ n.
Proof.
  intros Hb Hle. pose proof (Z.div_mod n b ltac:(lia)).
  pose proof (Z.mod_pos_bound n b Hb). nia.
Qed.

(** The rounded quotient stays in the binade of the exact one. *)
Lemma nearest_binade a b :
  0 ≤ a → 0 < b →
  let X := a * 2 ^ 1074 / b in
  (X < 2 ^ 53 → Float.nearest a b ≤ 2 ^ 53)
  ∧ (2 ^ 53 ≤ X →
     2 ^ Z.log2 X ≤ Float.nearest a b ≤ 2 ^ (Z.log2 X + 1)).
Proof.
  intros Ha Hb X. unfold Float.nearest. fold X.
  set (n := a * 2 ^ 1074) in *.
  assert (0 ≤ X) by (apply Z.div_pos; lia).
  split.
  - intros Hsmall.
    assert (Z.log2 X - 52 ≤ 0) as Hs.
    { destruct (decide (X = 0)) as [->|]; [done|].
      assert (Z.log2 X < 53); [|lia]. apply Z.log2_lt_pow2; lia. }
    rewrite (proj2 (Z.leb_le _ _) Hs).
    apply round_half_even_upper; [done|].
    pose proof (div_lt_bound n b (2 ^ 53) Hb Hsmall). lia.
  - intros Hbig. set (L := Z.log2 X) in *.
    assert (0 < X) by lia.
    assert (53 ≤ L) as HL.
    { change 53 with (Z.log2 (2 ^ 53)). by apply Z.log2_le_mono. }
    destruct (Z.log2_spec X) as [Hlo Hhi]; [done|]. fold L in Hlo, Hhi.
    rewrite (proj2 (Z.leb_gt _ _)) by lia.
    set (s := L - 52) in *.
    assert (0 < 2 ^ s) as Hps by (apply Z.pow_pos_nonneg; lia).
    assert (2 ^ L = 2 ^ 52 * 2 ^ s) as HLs
      by (rewrite <- Z.pow_add_r by lia; f_equal; lia).
    assert (2 ^ Z.succ L = 2 ^ 53 * 2 ^ s) as HLs'
      by (rewrite <- Z.pow_add_r by lia; f_equal; lia).
    replace (L + 1) with (Z.succ L) by lia. rewrite HLs, HLs'.
    assert (0 < b * 2 ^ s) as Hd by lia.
    split.
    + apply Z.mul_le_mono_nonneg_r; [lia|].
      etrans; [|apply round_half_even_lower; done].
      rewrite <- Z.div_div by lia. fold X.
      apply Z.div_le_lower_bound; lia.
    + apply Z.mul_le_mono_nonneg_r; [lia|].
      apply round_half_even_upper; [done|].
      assert (n < b * 2 ^ Z.succ L) by (by apply div_lt_bound).
      rewrite HLs' in *. lia.
Qed.

(** The rounded quotient reaches a float [M * 2^s] that is not a power of
    two exactly when the exact quotient is at least the midpoint below it,
    the midpoint included when the mantissa [M] is even. *)
Lemma nearest_ge a b s M :
  0 ≤ a → 0 < b → 1 ≤ s → 2 ^ 52 < M ≤ 2 ^ 53 →
  M * 2 ^ s ≤ Float.nearest a b
  ↔ if Z.even M then (2 * M - 1) * 2 ^ s * b ≤ 2 * (a * 2 ^ 1074)
    else (2 * M - 1) * 2 ^ s * b < 2 * (a * 2 ^ 1074).
Proof.
  intros Ha Hb Hs HM.
  destruct (nearest_binade a b Ha Hb) as [Hsmall Hbig].
  set (n := a * 2 ^ 1074) in *. set (X := n / b) in *.
  set (j := s + 52).
  assert (0 < 2 ^ s) as Hps by (apply Z.pow_pos_nonneg; lia).
  assert (2 ^ j = 2 ^ 52 * 2 ^ s) as Hj
    by (unfold j; rewrite Z.pow_add_r by lia; lia).
  assert (2 ^ (j + 1) = 2 ^ 53 * 2 ^ s) as Hj'.
  { unfold j. replace (s + 52 + 1) with (s + 53) by lia.
    rewrite Z.pow_add_r by lia. lia. }
  assert (2 ^ 53 ≤ 2 ^ j) as H53j by (apply Z.pow_le_mono_r; lia).
  assert (0 ≤ X) by (apply Z.div_pos; lia).
  destruct (Z.lt_ge_cases X (2 ^ j)) as [Hlow | Hge].
  - assert (Float.nearest a b ≤ 2 ^ j) as Hle.
    { destruct (Z.lt_ge_cases X (2 ^ 53)) as [H1 | H1];
        [specialize (Hsmall H1); lia|].
      destruct (Hbig H1) as [_ Hup]. etrans; [exact Hup|].
      apply Z.pow_le_mono_r; [lia|].
      assert (Z.log2 X < j); [|lia]. apply Z.log2_lt_pow2; lia. }
    assert (n < b * 2 ^ j) by (by apply div_lt_bound).
    split; [nia|]. intros Hm. exfalso. destruct (Z.even M); nia.
  - destruct (Z.lt_ge_cases X (2 ^ (j + 1))) as [Hin | Habove].
    + assert (Z.log2 X = j) as HL.
      { apply Z.le_antisymm.
        - assert (Z.log2 X < j + 1); [|lia]. apply Z.log2_lt_pow2; lia.
        - rewrite <- (Z.log2_pow2 j) by lia. by apply Z.log2_le_mono. }
      unfold Float.nearest. fold n X. rewrite HL.
      replace (j - 52) with s by (unfold j; lia).
      rewrite (proj2 (Z.leb_gt _ _)) by lia.
      pose proof (round_half_even_ge n (b * 2 ^ s) M ltac:(lia)) as Hr.
      split.
      * intros Hm. apply Z.mul_le_mono_pos_r in Hm; [|done].
        apply Hr in Hm. destruct (Z.even M); lia.
      * intros Hm. apply Z.mul_le_mono_pos_r; [done|].
        apply Hr. destruct (Z.even M); lia.
    + assert (2 ^ (j + 1) ≤ Float.nearest a b) as Hle.
      { destruct Hbig as [Hlo _]; [lia|]. etrans; [|exact Hlo].
        apply Z.pow_le_mono_r; [lia|].
        rewrite <- (Z.log2_pow2 (j + 1)) by lia. by apply Z.log2_le_mono. }
      assert (b * 2 ^ (j + 1) ≤ n) by (by apply div_ge_bound).
      split; [intros _; destruct (Z.even M); nia | nia].
Qed.

Lemma nearest_zero b : 0 < b → Float.nearest 0 b = 0.
Proof.
  intros Hb. unfold Float.nearest. change (0 * 2 ^ 1074) with 0.
  rewrite Z.div_0_l by lia. change (Z.log2 0 - 52 <=? 0) with true.
  unfold Float.round_half_even. rewrite Z.div_0_l, Z.mod_0_l by lia.
  change (2 * 0) with 0. by destruct (Z.ltb_spec 0 b); [|lia].
Qed.

(** The quotient of two non-negative ints. *)
Lemma true_divide_nonneg a b :
  0 ≤ a → 0 < b →
  Float.true_divide a b
  = if Float.infinity <=? Float.nearest a b then Raise OverflowError
    else Ok (Float.nearest a b).
Proof.
  intros Ha Hb. unfold Float.true_divide.
  rewrite (proj2 (Z.eqb_neq b 0)) by lia.
  rewrite (Z.abs_eq a), (Z.abs_eq b) by lia.
  destruct (Float.infinity <=? Float.nearest a b); [done|]. f_equal.
  destruct (decide (a = 0)) as [->|]; [by rewrite nearest_zero|].
  rewrite (Z.sgn_pos a), (Z.sgn_pos b) by lia. lia.
Qed.

(** Three floats in the form of [nearest_ge]. *)
Lemma float_0_7_value : float_0_7 = 6305039478318694 * 2 ^ 1021.
Proof. vm_compute. reflexivity. Qed.

Lemma float_0_3_value : float_0_3 = 5404319552844595 * 2 ^ 1020.
Proof. vm_compute. reflexivity. Qed.

Lemma infinity_value : Float.infinity = 9007199254740992 * 2 ^ 2045.
Proof. vm_compute. reflexivity. Qed.

(** Dividing both sides of a comparison by a power of two. *)
Lemma pow2_le_cancel k x y : 0 ≤ k → 2 ^ k * x ≤ 2 ^ k * y ↔ x ≤ y.
Proof.
  intros Hk. symmetry. apply Z.mul_le_mono_pos_l.
  by apply Z.pow_pos_nonneg.
Qed.

Lemma pow2_lt_cancel k x y : 0 ≤ k → 2 ^ k * x < 2 ^ k * y ↔ x < y.
Proof.
  intros Hk. symmetry. apply Z.mul_lt_mono_pos_l.
  by apply Z.pow_pos_nonneg.
Qed.

(** What [_calculate_confidence] answers on non-negative counts, as
    comparisons of integers. *)
Lemma calculate_confidence_cases page_ads total_ads :
  0 ≤ page_ads → 0 < total_ads →
  _calculate_confidence page_ads total_ads
  = if overflow_from * total_ads <=? page_ads then Raise OverflowError
    else if 12610078956637387 * total_ads <=? 2 ^ 54 * page_ads then Ok high
    else if 10808639105689189 * total_ads <? 2 ^ 55 * page_ads then Ok medium
    else Ok low.
Proof.
  intros Hp Ht. unfold _calculate_confidence.
  rewrite (proj2 (Z.eqb_neq total_ads 0)) by lia.
  rewrite true_divide_nonneg by done.
  pose proof (nearest_ge page_ads total_ads 2045 9007199254740992 Hp Ht
                ltac:(lia) ltac:(lia)) as Hinf.
  pose proof (nearest_ge page_ads total_ads 1021 6305039478318694 Hp Ht
                ltac:(lia) ltac:(lia)) as Hhigh.
  pose proof (nearest_ge page_ads total_ads 1020 5404319552844595 Hp Ht
                ltac:(lia) ltac:(lia)) as Hmed.
  rewrite <- infinity_value in Hinf. rewrite <- float_0_7_value in Hhigh.
  rewrite <- float_0_3_value in Hmed.
  cbn [Z.even Pos.mul] in Hinf, Hhigh, Hmed.
  replace ((2 * 9007199254740992 - 1) * 2 ^ 2045 * total_ads)
    with (2 ^ 1075 * (overflow_from * total_ads)) in Hinf
    by (unfold overflow_from;
        change (2 ^ 2045) with (2 ^ (1075 + 970));
        rewrite (Z.pow_add_r 2 1075 970) by lia; ring).
  replace (2 * (page_ads * 2 ^ 1074)) with (2 ^ 1075 * page_ads)
    in Hinf by (change (2 ^ 1075) with (2 ^ (1 + 1074));
                rewrite (Z.pow_add_r 2 1 1074) by lia; ring).
  rewrite pow2_le_cancel in Hinf by lia.
  replace ((2 * 6305039478318694 - 1) * 2 ^ 1021 * total_ads)
    with (2 ^ 1021 * (12610078956637387 * total_ads)) in Hhigh by ring.
  replace (2 * (page_ads * 2 ^ 1074)) with (2 ^ 1021 * (2 ^ 54 * page_ads))
    in Hhigh by (change (2 ^ 1074) with (2 ^ (1021 + 53));
                 rewrite (Z.pow_add_r 2 1021 53) by lia; ring).
  rewrite pow2_le_cancel in Hhigh by lia.
  replace ((2 * 5404319552844595 - 1) * 2 ^ 1020 * total_ads)
    with (2 ^ 1020 * (10808639105689189 * total_ads)) in Hmed by ring.
  replace (2 * (page_ads * 2 ^ 1074)) with (2 ^ 1020 * (2 ^ 55 * page_ads))
    in Hmed by (change (2 ^ 1074) with (2 ^ (1020 + 54));
                rewrite (Z.pow_add_r 2 1020 54) by lia; ring).
  rewrite pow2_lt_cancel in Hmed by lia.
  unfold Float.ge.
  destruct (Z.leb_spec Float.infinity (Float.nearest page_ads total_ads))
    as [Hi|Hi]; destruct (Z.leb_spec (overflow_from * total_ads) page_ads)
    as [Ho|Ho]; try (exfalso; lia); [done|].
  cbn [mbind result_bind].
  destruct (Z.leb_spec float_0_7 (Float.nearest page_ads total_ads))
    as [H7|H7];
    destruct (Z.leb_spec (12610078956637387 * total_ads) (2 ^ 54 * page_ads))
    as [H7'|H7']; try (exfalso; lia); [done|].
  destruct (Z.leb_spec float_0_3 (Float.nearest page_ads total_ads))
    as [H3|H3];
    destruct (Z.ltb_spec (10808639105689189 * total_ads) (2 ^ 55 * page_ads))
    as [H3'|H3']; try (exfalso; lia); done.
Qed.

End FloatFacts.

Section ConfidenceClaims.

Lemma Qlt_iff_not_le (x y : Q) : (x < y)%Q ↔ ¬ (y <= x)%Q.
Proof. split; [apply Qlt_not_le | apply Qnot_le_lt]. Qed.

(** For a positive total the ratio tests are comparisons of integers. *)
Lemma ratio_ge_cross (a : Z) (b : positive) (page_ads total_ads : Z) :
  (0 < total_ads)%Z →
  (a # b <= inject_Z page_ads / inject_Z total_ads)%Q
  ↔ (a * total_ads ≤ Z.pos b * page_ads)%Z.
Proof.
  intros Ht. destruct total_ads as [|t|t]; try lia.
  unfold Qle, Qdiv, Qmult, Qinv, inject_Z. simpl. nia.
Qed.

Lemma ratio_le_cross (a : Z) (b : positive) (page_ads total_ads : Z) :
  (0 < total_ads)%Z →
  (inject_Z page_ads / inject_Z total_ads <= a # b)%Q
  ↔ (Z.pos b * page_ads ≤ a * total_ads)%Z.
Proof.
  intros Ht. destruct total_ads as [|t|t]; try lia.
  unfold Qle, Qdiv, Qmult, Qinv, inject_Z. simpl. nia.
Qed.

Lemma overflow_from_large : (2 ^ 1023 ≤ overflow_from)%Z.
Proof. by vm_compute. Qed.

(** The answers on non-negative counts, by the exact ratio. *)
Lemma calculate_confidence_by_ratio (page_ads total_ads : Z) :
  (0 ≤ page_ads)%Z → (0 < total_ads)%Z →
  let ratio := (inject_Z page_ads / inject_Z total_ads)%Q in
  let answer := _calculate_confidence page_ads total_ads in
  (answer = Raise OverflowError
   ↔ (overflow_from * total_ads ≤ page_ads)%Z)
  ∧ (answer = Ok high
     ↔ (high_from <= ratio)%Q ∧ (page_ads < overflow_from * total_ads)%Z)
  ∧ (answer = Ok medium ↔ (medium_above < ratio)%Q ∧ (ratio < high_from)%Q)
  ∧ (answer = Ok low ↔ (ratio <= medium_above)%Q).
Proof.
  intros Hp Ht ratio answer. subst ratio answer.
  rewrite calculate_confidence_cases by done.
  unfold high_from, medium_above.
  rewrite !Qlt_iff_not_le, !ratio_ge_cross, !ratio_le_cross by done.
  change (2 ^ 54)%Z with 18014398509481984%Z.
  change (2 ^ 55)%Z with 36028797018963968%Z.
  pose proof overflow_from_large as Hbig.
  assert (2 * total_ads ≤ overflow_from * total_ads)%Z as Hmul.
  { apply Z.mul_le_mono_nonneg_r; [lia|]. etrans; [|exact Hbig]. done. }
  destruct (Z.leb_spec (overflow_from * total_ads) page_ads) as [Ho|Ho].
  { repeat split; try done; try lia; intros; lia. }
  destruct (Z.leb_spec (12610078956637387 * total_ads)
              (18014398509481984 * page_ads)) as [H7|H7].
  { repeat split; try done; try lia; intros; lia. }
  destruct (Z.ltb_spec (10808639105689189 * total_ads)
              (36028797018963968 * page_ads)) as [H3|H3];
    repeat split; try done; try lia; intros; lia.
Qed.

(** C7, amended.  [_calculate_confidence] answers low for a total of
    zero.  For non-negative counts and a positive total it compares the
    quotient rounded to a float with the floats [0.7] and [0.3]: it answers
    high exactly when the exact ratio is at least [high_from], a little
    below 7/10, medium exactly when the ratio is above [medium_above], a
    little below 3/10, and below [high_from], low exactly when the ratio is
    at most [medium_above]; it raises [OverflowError] exactly when the ratio
    is [overflow_from] or more.  For a total below 10^15 and a page count
    below 2^1023 the answers are those of the exact thresholds: high
    exactly when [7 * total <= 10 * page], medium exactly when
    [3 * total <= 10 * page < 7 * total], low exactly when
    [10 * page < 3 * total].  Between two calls that return, the answer
    does not decrease when the ratio does not. *)
Theorem calculate_confidence_thresholds (page_ads total_ads : Z) :
  let ratio := (inject_Z page_ads / inject_Z total_ads)%Q in
  let answer := _calculate_confidence page_ads total_ads in
  (total_ads = 0%Z → answer = Ok low)
  ∧ ((0 ≤ page_ads)%Z → (0 < total_ads)%Z →
     (answer = Raise OverflowError
      ↔ (overflow_from * total_ads ≤ page_ads)%Z)
     ∧ (answer = Ok high
        ↔ (high_from <= ratio)%Q
          ∧ (page_ads < overflow_from * total_ads)%Z)
     ∧ (answer = Ok medium
        ↔ (medium_above < ratio)%Q ∧ (ratio < high_from)%Q)
     ∧ (answer = Ok low ↔ (ratio <= medium_above)%Q))
  ∧ ((0 ≤ page_ads < 2 ^ 1023)%Z → (0 < total_ads < 10 ^ 15)%Z →
     (answer = Ok high ↔ (7 * total_ads ≤ 10 * page_ads)%Z)
     ∧ (answer = Ok medium
        ↔ (3 * total_ads ≤ 10 * page_ads < 7 * total_ads)%Z)
     ∧ (answer = Ok low ↔ (10 * page_ads < 3 * total_ads)%Z))
  ∧ (∀ page_ads' total_ads' c c',
       (0 ≤ page_ads)%Z → (0 < total_ads)%Z →
       (0 ≤ page_ads')%Z → (0 < total_ads')%Z →
       answer = Ok c →
       _calculate_confidence page_ads' total_ads' = Ok c' →
       (ratio <= inject_Z page_ads' / inject_Z total_ads')%Q →
       rank c ≤ rank c').
Proof.
  intros ratio answer.
  split; [by intros ->|].
  split; [apply calculate_confidence_by_ratio|].
  split.
  - intros [Hp Hp'] [Ht Ht']. subst answer.
    rewrite calculate_confidence_cases by done.
    change (2 ^ 54)%Z with 18014398509481984%Z.
    change (2 ^ 55)%Z with 36028797018963968%Z.
    change (10 ^ 15)%Z with 1000000000000000%Z in Ht'.
    pose proof overflow_from_large as Hbig.
    assert (overflow_from * 1 ≤ overflow_from * total_ads)%Z as Hmul
      by (apply Z.mul_le_mono_nonneg_l; lia).
    destruct (Z.leb_spec (overflow_from * total_ads) page_ads) as [Ho|Ho];
      [lia|].
    destruct (Z.leb_spec (12610078956637387 * total_ads)
                (18014398509481984 * page_ads)) as [H7|H7].
    { repeat split; try done; try lia; intros; lia. }
    destruct (Z.ltb_spec (10808639105689189 * total_ads)
                (36028797018963968 * page_ads)) as [H3|H3];
      repeat split; try done; try lia; intros; lia.
  - intros p' t' c c' Hp Ht Hp' Ht' Hc Hc' Hle.
    destruct (calculate_confidence_by_ratio page_ads total_ads Hp Ht)
      as (_ & Hh & Hm & _).
    destruct (calculate_confidence_by_ratio p' t' Hp' Ht')
      as (Ho' & Hh' & _ & Hl').
    fold ratio answer in Hh, Hm. simpl in Ho', Hh', Hl'.
    rewrite Hc' in Ho', Hh', Hl'. rewrite Hc in Hh, Hm.
    destruct c; simpl; [| |lia].
    + destruct Hh as [[Hhigh _] _]; [done|].
      assert (c' = high) as ->; [|done].
      assert (Ok c' = Ok high) as [= ->]; [|done].
      apply Hh'. split; [by eapply Qle_trans|].
      apply Z.lt_nge. intros Hover. by apply Ho' in Hover.
    + destruct Hm as [[Hmed _] _]; [done|].
      destruct c'; simpl; try lia. exfalso.
      destruct Hl' as [Hlow _]. specialize (Hlow eq_refl).
      apply (Qlt_not_le _ _ Hmed). by eapply Qle_trans.
Qed.

End ConfidenceClaims.

(** ** The ad analyzer *)
Section SortFacts.

Lemma insert_desc_perm x l : insert_desc x l ≡ₚ x :: l.
Proof.
  induction l as [|y l IH]; simpl; [done|].
  destruct (snd y <=? snd x)%Z; [done|]. rewrite IH. apply Permutation_swap.
Qed.

Lemma sorted_desc_perm l : sorted_desc l ≡ₚ l.
Proof.
  induction l as [|x l IH]; simpl; [done|].
  by rewrite insert_desc_perm, IH.
Qed.

Lemma insert_desc_sorted x l :
  StronglySorted (fun a b => (snd b ≤ snd a)%Z) l →
  StronglySorted (fun a b => (snd b ≤ snd a)%Z) (insert_desc x l).
Proof.
  induction 1 as [|y l Hl IH Hy]; simpl.
  - by repeat constructor.
  - destruct (snd y <=? snd x)%Z eqn:Hle.
    + apply Z.leb_le in Hle. constructor; [by constructor|].
      constructor; [done|].
      eapply Forall_impl; [exact Hy|]. simpl. lia.
    + apply Z.leb_gt in Hle. constructor; [done|].
      rewrite insert_desc_perm. constructor; [lia | done].
Qed.

Lemma sorted_desc_sorted l :
  StronglySorted (fun a b => (snd b ≤ snd a)%Z) (sorted_desc l).
Proof.
  induction l as [|x l IH]; simpl; [constructor|].
  by apply insert_desc_sorted.
Qed.

(** Stability: the items of one count keep their order. *)
Lemma insert_desc_stable c x l :
  filter (fun e => snd e = c) (insert_desc x l)
  = filter (fun e => snd e = c) (x :: l).
Proof.
  induction l as [|y l IH]; simpl; [done|].
  destruct (snd y <=? snd x)%Z eqn:Hle; [done|]. apply Z.leb_gt in Hle.
  rewrite (filter_cons _ y), IH, !filter_cons.
  destruct (decide (snd y = c)), (decide (snd x = c)); try done. lia.
Qed.

Lemma sorted_desc_stable c l :
  filter (fun e => snd e = c) (sorted_desc l) = filter (fun e => snd e = c) l.
Proof.
  induction l as [|x l IH]; simpl; [done|].
  by rewrite insert_desc_stable, !filter_cons, IH.
Qed.

End SortFacts.

Section CounterFacts.

Lemma counter_mem_keys (d : Counter) k :
  counter_mem d k = true ↔ k ∈ map fst d.
Proof.
  induction d as [|[k' v] d IH]; simpl.
  - split; [done | by intros ?%elem_of_nil].
  - rewrite orb_true_iff, elem_of_cons, IH, String.eqb_eq. naive_solver.
Qed.

Lemma counter_get_absent (d : Counter) k :
  k ∉ map fst d → counter_get d k 0 = 0%Z.
Proof.
  induction d as [|[k' v] d IH]; simpl; [done|].
  rewrite not_elem_of_cons. intros [Hne ?].
  destruct (String.eqb_spec k' k); [congruence | by apply IH].
Qed.

Lemma counter_get_present (d : Counter) k v :
  NoDup (map fst d) → (k, v) ∈ d → counter_get d k 0 = v.
Proof.
  induction d as [|[k' v'] d IH]; simpl.
  - by intros _ ?%elem_of_nil.
  - intros [Hk' Hd]%NoDup_cons [[= -> ->] | Hin]%elem_of_cons.
    + by rewrite String.eqb_refl.
    + destruct (String.eqb_spec k' k) as [->|]; [|by apply IH].
      destruct Hk'. apply list_elem_of_fmap. by exists (k, v).
Qed.

Lemma counter_set_keys (d : Counter) k v :
  map fst (counter_set d k v)
  = map fst d ++ (if counter_mem d k then [] else [k]).
Proof.
  induction d as [|[k' v'] d IH]; simpl; [done|].
  destruct (String.eqb k' k); simpl; [by rewrite app_nil_r|]. by rewrite IH.
Qed.

Lemma counter_get_set (d : Counter) k v k' :
  counter_get (counter_set d k v) k' 0
  = if String.eqb k k' then v else counter_get d k' 0.
Proof.
  induction d as [|[k0 v0] d IH]; simpl.
  - by destruct (String.eqb k k').
  - destruct (String.eqb_spec k0 k) as [->|Hne]; simpl.
    + by destruct (String.eqb k k').
    + rewrite IH. destruct (String.eqb_spec k k') as [->|]; [|done].
      by destruct (String.eqb_spec k0 k').
Qed.

Lemma counter_set_total (d : Counter) k v :
  sum_by snd (counter_set d k v)
  = (sum_by snd d - counter_get d k 0 + v)%Z.
Proof.
  induction d as [|[k' v'] d IH]; simpl; [lia|].
  destruct (String.eqb k' k); simpl; [lia|]. rewrite IH. lia.
Qed.

Lemma counter_set_NoDup (d : Counter) k v :
  NoDup (map fst d) → NoDup (map fst (counter_set d k v)).
Proof.
  intros Hd. rewrite counter_set_keys.
  destruct (counter_mem d k) eqn:Hm; [by rewrite app_nil_r|].
  apply NoDup_app. split; [done|]. split; [|apply NoDup_singleton].
  intros x Hx ->%list_elem_of_singleton.
  apply counter_mem_keys in Hx. congruence.
Qed.

Lemma sum_by_app {A} (f : A → Z) l1 l2 :
  sum_by f (l1 ++ l2) = (sum_by f l1 + sum_by f l2)%Z.
Proof. induction l1 as [|x l1 IH]; simpl; [done|]. rewrite IH. lia. Qed.

Lemma sum_by_perm {A} (f : A → Z) l1 l2 :
  l1 ≡ₚ l2 → sum_by f l1 = sum_by f l2.
Proof. induction 1; simpl; lia. Qed.

Lemma sum_by_map {A B} (f : B → Z) (g : A → B) l :
  sum_by f (map g l) = sum_by (f ∘ g) l.
Proof. induction l as [|x l IH]; simpl; [done|]. by rewrite IH. Qed.

End CounterFacts.

Section AggregateFacts.

Lemma first_occurrences_snoc l x :
  first_occurrences (l ++ [x])
  = first_occurrences l ++ (if decide (x ∈ l) then [] else [x]).
Proof.
  induction l as [|y l IH]; simpl; [done|].
  rewrite IH, filter_app. f_equal.
  destruct (decide (x ∈ l)) as [Hin|Hin].
  - rewrite decide_True by (by right). done.
  - destruct (decide (x = y)) as [->|Hne].
    + rewrite decide_True by (by left). by rewrite filter_cons_False by naive_solver.
    + rewrite decide_False by (rewrite elem_of_cons; naive_solver).
      by rewrite filter_cons_True by done.
Qed.

Lemma add_competitor_eq (m : Counter) c :
  add_competitor m c
  = counter_set m c.(domain) (counter_get m c.(domain) 0 + c.(ads_count)).
Proof.
  unfold add_competitor. destruct (counter_mem m _) eqn:Hm; [done|].
  rewrite counter_get_absent; [done|].
  rewrite <- counter_mem_keys. congruence.
Qed.

Lemma merge_competitors_entries pas :
  merge_competitors pas = foldl add_competitor [] (competitor_entries pas).
Proof.
  unfold merge_competitors, competitor_entries. generalize ([] : Counter).
  induction pas as [|pa pas IH]; intros acc; simpl; [done|].
  by rewrite foldl_app, IH.
Qed.

Lemma aggregate_count_snoc es e d :
  aggregate_count (es ++ [e]) d
  = (aggregate_count es d
     + if String.eqb e.(domain) d then e.(ads_count) else 0)%Z.
Proof.
  unfold aggregate_count. rewrite filter_app, sum_by_app, filter_cons.
  destruct (String.eqb_spec (domain e) d).
  - rewrite decide_True by done. simpl. lia.
  - rewrite decide_False by done. simpl. lia.
Qed.

(** The merged dictionary: its keys are the domains in the order of
    their first entry, its values the sums over the entries. *)
Lemma merged_keys_counts es :
  map fst (foldl add_competitor [] es) = first_occurrences (map domain es)
  ∧ ∀ d, counter_get (foldl add_competitor [] es) d 0 = aggregate_count es d.
Proof.
  induction es as [|e es [IHk IHc]] using rev_ind; [done|].
  rewrite foldl_app. simpl. rewrite add_competitor_eq. split.
  - rewrite counter_set_keys, map_app. simpl (map domain [e]).
    rewrite first_occurrences_snoc, IHk. f_equal.
    destruct (counter_mem _ _) eqn:Hm.
    + apply counter_mem_keys in Hm.
      rewrite IHk, elem_of_first_occurrences in Hm. by rewrite decide_True.
    + rewrite decide_False; [done|]. intros Hin.
      rewrite <- elem_of_first_occurrences, <- IHk, <- counter_mem_keys in Hin.
      congruence.
  - intros d. rewrite counter_get_set, aggregate_count_snoc, <- !IHc.
    destruct (String.eqb_spec (domain e) d) as [->|]; [done | lia].
Qed.

Lemma merged_values es k v :
  (k, v) ∈ foldl add_competitor [] es → v = aggregate_count es k.
Proof.
  destruct (merged_keys_counts es) as [Hk Hc]. intros Hin.
  rewrite <- Hc. symmetry. apply counter_get_present; [|done].
  rewrite Hk. apply NoDup_first_occurrences.
Qed.

Lemma filter_keys_by_value (count : Z) (value : string → Z) (m : Counter) :
  Forall (fun kv => snd kv = value (fst kv)) m →
  map fst (filter (fun kv => snd kv = count) m)
  = filter (fun k => value k = count) (map fst m).
Proof.
  induction 1 as [|[k v] m Hkv _ IH]; [done|]. simpl in *. subst v.
  destruct (decide (value k = count)).
  - rewrite !filter_cons_True by done. simpl. by rewrite IH.
  - rewrite !filter_cons_False by done. by rewrite IH.
Qed.

End AggregateFacts.

Section AggregateClaims.
Context `{UrlLib} `{ApifyClient}.

(** C8.  The list [top_competitors] of the report is the first 20
    entries, at most, of the aggregated list.  The aggregated list has
    one entry for each domain of the pages' competitor lists; the count
    of an entry is the sum of the counts of its domain over all these
    lists; the entries are in descending order of count; the domains of
    one count stand in the order in which they first occur in the pages'
    lists (insertion order).  A report of [analyze_client] is built so from
    its own page details. *)
Theorem top_competitors_ranking client now page_analyses :
  let entries := competitor_entries page_analyses in
  let all_competitors := _aggregate_competitors page_analyses in
  let top := (make_report client now page_analyses).(top_competitors) in
  (∀ mapping_data report,
     analyze_client mapping_data now = Ok report →
     report = make_report mapping_data.(client_id) now report.(page_details))
  ∧ top = take 20 all_competitors
  ∧ length top ≤ 20
  ∧ map top_domain all_competitors ≡ₚ first_occurrences (map domain entries)
  ∧ (∀ t, t ∈ all_competitors →
          t.(top_total_ads) = aggregate_count entries t.(top_domain))
  ∧ StronglySorted (fun a b => (b.(top_total_ads) ≤ a.(top_total_ads))%Z)
                   all_competitors
  ∧ (∀ count,
       map top_domain
           (filter (fun t => t.(top_total_ads) = count) all_competitors)
       = filter (fun d => aggregate_count entries d = count)
                (first_occurrences (map domain entries))).
Proof.
  intros entries all top. split.
  { intros mapping_data report. unfold analyze_client.
    destruct (sites_loop _ _) as [pas|]; [|done].
    cbn [mbind result_bind]. by intros [= <-]. }
  subst top all. unfold make_report. simpl.
  unfold _aggregate_competitors. rewrite merge_competitors_entries.
  fold entries. set (m := foldl add_competitor [] entries).
  destruct (merged_keys_counts entries) as [Hk Hc]. fold m in Hk, Hc.
  set (mk := fun '(d, count) => {| top_domain := d; top_total_ads := count |}).
  assert (∀ l, map top_domain (map mk l) = map fst l) as Hdom.
  { intros l. rewrite map_map. apply map_ext. by intros []. }
  assert (Forall (fun kv => snd kv = aggregate_count entries (fst kv)) m)
    as Hvals.
  { apply Forall_forall. intros [k v] Hin. by apply merged_values. }
  split; [done|]. split; [rewrite length_take; lia|].
  split; [by rewrite Hdom, sorted_desc_perm, Hk|].
  split; [|split].
  - intros t [[k v] [-> Hin]]%list_elem_of_fmap. simpl.
    rewrite sorted_desc_perm in Hin. by apply merged_values.
  - pose proof (sorted_desc_sorted m) as Hs.
    induction Hs as [|[k v] l _ IH Hall]; simpl; constructor; [done|].
    apply Forall_fmap. eapply Forall_impl; [exact Hall|]. by intros [].
  - intros count.
    assert (∀ l, filter (fun t => t.(top_total_ads) = count) (map mk l)
                 = map mk (filter (fun kv => snd kv = count) l)) as ->.
    { induction l as [|[k v] l IH]; [done|]. simpl.
      rewrite !filter_cons. simpl. destruct (decide (v = count)); simpl;
        by rewrite IH. }
    rewrite Hdom, sorted_desc_stable, <- Hk.
    by apply filter_keys_by_value.
Qed.

End AggregateClaims.

Section TallyFacts.
Context `{UrlLib} `{ApifyClient}.

Lemma tally_consistent_empty : tally_consistent empty_tally.
Proof. repeat split; try done. constructor. Qed.

Lemma ads_classified_snoc c ads a :
  length (ads_classified c (ads ++ [a]))
  = length (ads_classified c ads)
    + (if decide (a.(ad_classification) = c) then 1 else 0).
Proof.
  unfold ads_classified. rewrite filter_app, length_app, filter_cons.
  by destruct (decide _).
Qed.

Lemma ads_against_snoc d ads a :
  length (ads_against d (ads ++ [a]))
  = length (ads_against d ads)
    + (if decide (a.(ad_classification) = CONCURRENT
                  ∧ a.(ad_competitor_domain) = Some d) then 1 else 0).
Proof.
  unfold ads_against. rewrite filter_app, length_app, filter_cons.
  by destruct (decide _).
Qed.

(** One turn of the loop keeps the tally consistent and files one ad. *)
Lemma tally_ad_consistent d ad t t' :
  tally_ad d ad t = Ok t' →
  tally_consistent t →
  tally_consistent t'
  ∧ length t'.(tally_classified_ads) = S (length t.(tally_classified_ads)).
Proof.
  unfold tally_ad. destruct (classify_ad ad d) as [r|] eqn:Hr; [|done].
  apply classify_ad_Ok in Hr as (urls & _ & ->).
  cbn [mbind result_bind].
  destruct (Py.get ad "ad_archive_id" VNone) as [id|]; [|done].
  destruct (Py.get ad "ad_creation_time" VNone) as [created|]; [|done].
  destruct (Py.get ad "ad_delivery_start_time" VNone) as [started|]; [|done].
  cbn [mbind result_bind]. intros [= <-].
  intros (Hconv & Hconc & Hunk & Hsum & Hnd & Hget & Htot).
  pose proof (classify_urls_cases urls d) as Hcases. simpl in Hcases.
  set (r := classify_urls urls d) in *.
  split; [|destruct (classification r); simpl; rewrite length_app; simpl; lia].
  unfold tally_consistent.
  destruct Hcases as [[Hc Hnone] | [Hc (host & Hsome & Hne)]].
  - assert (∀ d', length (ads_against d' (t.(tally_classified_ads) ++
               [{| ad_id := id; ad_classification := classification r;
                   ad_confidence := confidence r; ad_reason := reason r;
                   ad_destination_url := destination_url r;
                   ad_competitor_domain := competitor_domain r;
                   ad_creation_time := created;
                   ad_delivery_start_time := started |}]))
             = length (ads_against d' t.(tally_classified_ads))) as Hag.
    { intros d'. rewrite ads_against_snoc. simpl.
      rewrite decide_False; [lia|]. intros [? _]. destruct Hc; congruence. }
    destruct Hc as [Hc|Hc]; rewrite Hc in Hag |- *; simpl;
      rewrite !ads_classified_snoc, length_app; simpl;
      repeat split; try done; try lia;
      intros d'; by rewrite Hag.
  - rewrite Hc, Hsome, Hne. simpl.
    rewrite !ads_classified_snoc, length_app. simpl.
    repeat split; try done; try lia.
    + by apply counter_set_NoDup.
    + intros d'. rewrite counter_get_set, ads_against_snoc. simpl.
      rewrite !Hget.
      destruct (String.eqb_spec host d') as [->|Hne'].
      * rewrite decide_True by done. lia.
      * rewrite decide_False; [lia|]. intros [_ [= ?]]. done.
    + rewrite counter_set_total. lia.
Qed.

Lemma tally_loop_consistent d ads t t' :
  tally_loop d ads t = Ok t' →
  tally_consistent t →
  tally_consistent t'
  ∧ length t'.(tally_classified_ads)
    = length t.(tally_classified_ads) + length ads.
Proof.
  revert t; induction ads as [|ad ads IH]; intros t; simpl.
  - intros [= <-] Ht. split; [done | lia].
  - destruct (tally_ad d ad t) as [t1|] eqn:Hstep; [|done].
    cbn [mbind result_bind]. intros Hloop Ht.
    destruct (tally_ad_consistent _ _ _ _ Hstep Ht) as [Ht1 Hlen1].
    destruct (IH _ Hloop Ht1) as [Ht' Hlen]. split; [done | lia].
Qed.

End TallyFacts.

Section AnalyzerClaims.
Context `{UrlLib} `{ApifyClient}.

(** C10.  In a page analysis the three counts add up to [total_ads],
    which is the length of [classified_ads] and the number of ads fetched
    for the page; each count is the number of ads of its classification.
    The [ads_count] of the competitors add up to [concurrent_ads]: the
    competitors have distinct domains and the count of each is the number
    of ads classified COMPETITOR against its domain. *)
Theorem page_counts_partition page d pa :
  _analyze_page page d = Ok pa →
  (pa.(converty_ads) + pa.(concurrent_ads) + pa.(unknown_ads))%Z
    = pa.(total_ads)
  ∧ pa.(total_ads) = Z.of_nat (length pa.(classified_ads))
  ∧ length pa.(classified_ads)
    = length (get_all_ads_by_page_id page.(fb_page_id))
  ∧ pa.(converty_ads)
    = Z.of_nat (length (ads_classified CONVERTY pa.(classified_ads)))
  ∧ pa.(concurrent_ads)
    = Z.of_nat (length (ads_classified CONCURRENT pa.(classified_ads)))
  ∧ pa.(unknown_ads)
    = Z.of_nat (length (ads_classified UNKNOWN pa.(classified_ads)))
  ∧ sum_by ads_count pa.(competitors) = pa.(concurrent_ads)
  ∧ NoDup (map domain pa.(competitors))
  ∧ (∀ c, c ∈ pa.(competitors) →
          c.(ads_count)
          = Z.of_nat (length (ads_against c.(domain) pa.(classified_ads)))).
Proof.
  unfold _analyze_page.
  destruct (tally_loop d _ empty_tally) as [t|] eqn:Hloop; [|done].
  cbn [mbind result_bind]. intros [= <-]. simpl.
  destruct (tally_loop_consistent _ _ _ _ Hloop tally_consistent_empty)
    as [(Hconv & Hconc & Hunk & Hsum & Hnd & Hget & Htot) Hlen].
  simpl in Hlen.
  set (mk := fun '(d, count) => {| domain := d; ads_count := count |}).
  assert (∀ l, map domain (map mk l) = map fst l) as Hdom.
  { intros l. rewrite map_map. apply map_ext. by intros []. }
  repeat split; try done.
  - rewrite sum_by_map, <- Htot.
    rewrite <- (sum_by_perm snd _ _ (sorted_desc_perm (tally_competitors t))).
    clear. induction (sorted_desc _) as [|[k v] l IH]; simpl; [done|].
    by rewrite IH.
  - by rewrite Hdom, sorted_desc_perm.
  - intros c [[k v] [-> Hin]]%list_elem_of_fmap. simpl.
    rewrite sorted_desc_perm in Hin. rewrite <- Hget.
    symmetry. by apply counter_get_present.
Qed.

End AnalyzerClaims.

(** ** The properties at work, on the sample ads and CPython's [urlparse] *)
Section Worked.
Import Sample.

Local Abbreviation tbshopp := ("tbshopp.com") (only parsing).

(** The loop passes the platform link and stops at the card that holds
    the owned domain in its path; the rival card is not looked at. *)
Lemma carousel_ad_is_self :
  classify_ad carousel_ad tbshopp
  = Ok {| classification := CONVERTY; confidence := high;
          reason := reason_converty tbshopp;
          destination_url := Some "https://Shop.example/TBSHOPP.com/page";
          competitor_domain := None |}.
Proof.
  apply (classify_self_on_first_mention carousel_ad tbshopp
           ["https://www.facebook.com/somepage"]
           "https://Shop.example/TBSHOPP.com/page"
           ["https://rivalshop.io/x"]).
  - reflexivity.
  - repeat constructor.
  - by exists "https://shop.example/", "/page".
Defined.

(** As C2 is worded, the link of [owned_ad] is the first candidate whose
    host is extracted and not ignored, and no earlier candidate holds the
    owned domain; yet the ad is SELF, not COMPETITOR.  Likewise the
    redirect of [redirect_to_owned_ad] has an ignored host and is not
    skipped. *)
Lemma owned_host_is_not_competitor :
  _extract_urls_from_ad owned_ad = Ok ["https://tbshopp.com/buy"]
  ∧ _extract_domain "https://tbshopp.com/buy" = Some "tbshopp.com"
  ∧ _is_ignored_domain "tbshopp.com" = false
  ∧ classify_ad owned_ad tbshopp
    = Ok {| classification := CONVERTY; confidence := high;
            reason := reason_converty tbshopp;
            destination_url := Some "https://tbshopp.com/buy";
            competitor_domain := None |}
  ∧ host_skipped "https://l.facebook.com/l.php?u=https://tbshopp.com/buy"
    = true
  ∧ (classify_urls ["https://l.facebook.com/l.php?u=https://tbshopp.com/buy"]
                   tbshopp).(classification) = CONVERTY.
Proof. repeat split; reflexivity. Qed.

Lemma rival_ad_is_competitor :
  classify_ad rival_ad tbshopp
  = Ok {| classification := CONCURRENT; confidence := high;
          reason := reason_concurrent "rivalshop.io";
          destination_url := Some "https://www.RivalShop.io:8080/x";
          competitor_domain := Some "rivalshop.io" |}.
Proof.
  apply (proj1 (proj2 (classify_competitor_on_first_commercial_host
                         rival_ad tbshopp))
           ["https://www.facebook.com/somepage"]
           "https://www.RivalShop.io:8080/x" []); try reflexivity.
  repeat constructor.
Defined.

Lemma redirect_ad_is_unknown :
  ∃ r, classify_ad redirect_ad tbshopp = Ok r
       ∧ (r.(classification) = UNKNOWN
          ↔ Forall (fun u => skipped tbshopp u = true)
                   ["https://l.facebook.com/l.php?u=abc"])
       ∧ (r.(classification) = UNKNOWN →
          r = {| classification := UNKNOWN; confidence := medium;
                 reason := reason_no_commercial;
                 destination_url := Some "https://l.facebook.com/l.php?u=abc";
                 competitor_domain := None |}).
Proof.
  apply (classify_unknown_when_all_skipped redirect_ad tbshopp
           ["https://l.facebook.com/l.php?u=abc"]).
  reflexivity.
Defined.

(** C4, where the code departs from it.  [_extract_domain] removes every
    occurrence of [www.] from the host, not the leading one only: of the
    host [awww.shop.com] it makes [ashop.com], of [shop.www.example.com] it
    makes [shop.example.com]. *)
Theorem extract_domain_removes_inner_www :
  _extract_domain "http://awww.shop.com/x" = Some "ashop.com"
  ∧ _extract_domain "https://shop.www.example.com/" = Some "shop.example.com"
  ∧ _extract_domain "http://www.shop.com/x" = Some "shop.com".
Proof. repeat split; reflexivity. Qed.



(** As C7 is worded: the exact ratio is below 7/10 and the answer is high,
    the quotient, rounded to a float, being the float [0.7]; and a quotient
    beyond the floats raises. *)
Lemma confidence_high_below_seven_tenths :
  (10 * 700700000000002 < 7 * 1001000000000003)%Z
  ∧ _calculate_confidence 700700000000002 1001000000000003 = Ok high
  ∧ _calculate_confidence (2 ^ 1024) 1 = Raise OverflowError.
Proof. repeat split; by vm_compute. Qed.

(** Seven ads of ten: counts in the range where the exact thresholds
    decide. *)
Lemma seven_of_ten_is_high :
  (_calculate_confidence 7 10 = Ok high ↔ (7 * 10 ≤ 10 * 7)%Z)
  ∧ (_calculate_confidence 7 10 = Ok medium
     ↔ (3 * 10 ≤ 10 * 7 < 7 * 10)%Z)
  ∧ (_calculate_confidence 7 10 = Ok low ↔ (10 * 7 < 3 * 10)%Z).
Proof.
  apply (proj1 (proj2 (proj2 (calculate_confidence_thresholds 7 10))));
    split; by vm_compute.
Defined.



Lemma rival_ad_has_competitor_domain :
  let r := {| classification := CONCURRENT; confidence := high;
              reason := reason_concurrent "rivalshop.io";
              destination_url := Some "https://www.RivalShop.io:8080/x";
              competitor_domain := Some "rivalshop.io" |} in
  (is_Some r.(competitor_domain) ↔ r.(classification) = CONCURRENT)
  ∧ (∀ host, r.(competitor_domain) = Some host → Py.nonempty host = true)
  ∧ (r.(classification) = CONVERTY ∨ r.(classification) = UNKNOWN →
     r.(competitor_domain) = None).
Proof.
  apply (competitor_domain_iff_competitor rival_ad tbshopp). reflexivity.
Defined.

Lemma sample_page_counts :
  (analysis.(converty_ads) + analysis.(concurrent_ads)
   + analysis.(unknown_ads))%Z = analysis.(total_ads)
  ∧ analysis.(total_ads) = Z.of_nat (length analysis.(classified_ads))
  ∧ length analysis.(classified_ads)
    = length (get_all_ads_by_page_id (ApifyClient:=client) page.(fb_page_id))
  ∧ analysis.(converty_ads)
    = Z.of_nat (length (ads_classified CONVERTY analysis.(classified_ads)))
  ∧ analysis.(concurrent_ads)
    = Z.of_nat (length (ads_classified CONCURRENT analysis.(classified_ads)))
  ∧ analysis.(unknown_ads)
    = Z.of_nat (length (ads_classified UNKNOWN analysis.(classified_ads)))
  ∧ sum_by ads_count analysis.(competitors) = analysis.(concurrent_ads)
  ∧ NoDup (map domain analysis.(competitors))
  ∧ (∀ c, c ∈ analysis.(competitors) →
          c.(ads_count)
          = Z.of_nat (length (ads_against c.(domain)
                                          analysis.(classified_ads)))).
Proof.
  apply (page_counts_partition (H0:=client) page tbshopp analysis).
  reflexivity.
Defined.

(** The sample page: two ads for the owned shop, two against the rival,
    one unknown. *)
Example sample_page_analysis :
  analysis.(total_ads) = 5%Z
  ∧ analysis.(converty_ads) = 2%Z
  ∧ analysis.(concurrent_ads) = 2%Z
  ∧ analysis.(unknown_ads) = 1%Z
  ∧ analysis.(competitors) = [{| domain := "rivalshop.io"; ads_count := 2 |}].
Proof. repeat split; reflexivity. Qed.

(** Examples 1 to 3 of the specification. *)
Example spec_examples_classify :
  (∃ r, classify_ad owned_ad tbshopp = Ok r
        ∧ r.(classification) = CONVERTY ∧ r.(confidence) = high
        ∧ r.(destination_url) = Some "https://tbshopp.com/buy")
  ∧ (∃ r, classify_ad
            (VDict [("snapshot",
                     VDict [("link_url", VStr "https://rivalshop.io/x")])])
            tbshopp = Ok r
          ∧ r.(classification) = CONCURRENT ∧ r.(confidence) = high
          ∧ r.(competitor_domain) = Some "rivalshop.io")
  ∧ (∃ r, classify_ad redirect_ad tbshopp = Ok r
          ∧ r.(classification) = UNKNOWN ∧ r.(confidence) = medium
          ∧ r.(destination_url) = Some "https://l.facebook.com/l.php?u=abc").
Proof. repeat split; eexists; repeat split; reflexivity. Qed.

(** Example 4: ten ads for the site. *)
Example spec_example_confidence :
  _calculate_confidence 7 10 = Ok high
  ∧ _calculate_confidence 4 10 = Ok medium
  ∧ _calculate_confidence 3 10 = Ok medium
  ∧ _calculate_confidence 1 10 = Ok low
  ∧ _calculate_confidence 0 0 = Ok low.
Proof. repeat split; by vm_compute. Qed.

(** Example 5: the merged competitor list of two pages. *)
Example spec_example_aggregate :
  _aggregate_competitors two_pages
  = [{| top_domain := "x.com"; top_total_ads := 5 |};
     {| top_domain := "y.com"; top_total_ads := 1 |}].
Proof. reflexivity. Qed.

(** Python's [sorted] with [reverse=True] keeps the order of equal
    counts. *)
Example sorted_desc_ties :
  sorted_desc [("a", 1); ("b", 2); ("c", 1); ("d", 2)]%Z
  = [("b", 2); ("d", 2); ("a", 1); ("c", 1)]%Z.
Proof. reflexivity. Qed.

Example builtins_examples :
  clean_url "  http://a.com/x).  " = "http://a.com/x"
  ∧ Py.findall_urls "see https://a.com/x, and http://b.io<http://c.d> https:// http://"
    = ["https://a.com/x,"; "http://b.io"; "http://c.d"]
  ∧ Py.replace "www." EmptyString "wwwwww..www.a" = "www.a"
  ∧ PyStr.str (VList [VNone; VBool true; VInt (-5); VInt 0; VStr "x";
                      VDict [("k", VList [VStr "http://a.com"])]])
    = "[None, True, -5, 0, 'x', {'k': ['http://a.com']}]"
  ∧ _extract_domain "HTTP://Shop.com:8080/x" = Some "http"
  ∧ _extract_domain "www.Shop.com:8080/x" = Some "shop.com"
  ∧ _extract_domain "http://[::1/x" = None.
Proof. repeat split; reflexivity. Qed.

End Worked.

(** * Further properties of the code *)

(** ** The classifier *)
Section ClassifierMore.
Context `{UrlLib}.

Lemma lower_app a b : Py.lower (a +:+ b) = Py.lower a +:+ Py.lower b.
Proof.
  induction a as [|c a IH]; [done|].
  rewrite append_cons. simpl. by rewrite IH, append_cons.
Qed.

Lemma lower_idem s : Py.lower (Py.lower s) = Py.lower s.
Proof. apply all_chars_lower_fixed, lower_is_lower. Qed.

Lemma contains_trans a b c :
  Py.contains a b = true → Py.contains b c = true → Py.contains a c = true.
Proof.
  rewrite !contains_split. intros (b1 & b2 & ->) (c1 & c2 & ->).
  exists (c1 +:+ b1), (b2 +:+ c2). by rewrite !append_assoc.
Qed.

Lemma contains_empty s : Py.contains EmptyString s = true.
Proof. apply contains_split. by exists EmptyString, s. Qed.

(** What a result returned from inside the loop says about the list: the
    candidate it stopped at, and why. *)
Lemma classify_loop_stop d urls r :
  classify_loop d urls = Some r →
  ∃ pre url post,
    urls = pre ++ url :: post
    ∧ Forall (fun u => skipped d u = true) pre
    ∧ r.(destination_url) = Some url
    ∧ r.(confidence) = high
    ∧ (r.(classification) = CONVERTY ∧ mentions d url = true
       ∨ r.(classification) = CONCURRENT ∧ mentions d url = false
         ∧ ∃ host, r.(competitor_domain) = Some host
                   ∧ _extract_domain url = Some host
                   ∧ _is_ignored_domain host = false).
Proof.
  induction urls as [|u urls IH]; [done|].
  destruct (skipped d u) eqn:Hs.
  - rewrite classify_loop_skipped by done. intros Hr.
    destruct (IH Hr) as (pre & url & post & -> & Hpre & Hrest).
    exists (u :: pre), url, post. split; [done|]. split; [by constructor|done].
  - intros Hr. exists [], u, urls. split; [done|]. split; [constructor|].
    unfold skipped, host_skipped, mentions in *. simpl in Hr.
    destruct (Py.contains _ _) eqn:Hm.
    + injection Hr as <-. simpl. by repeat split; try left.
    + simpl in Hs. destruct (_extract_domain u) as [host|] eqn:Hd; [|done].
      rewrite Hs, (_extract_domain_nonempty _ _ Hd) in Hr. simpl in Hr.
      injection Hr as <-. simpl. repeat split; try done.
      right. repeat split; try done. by exists host.
Qed.

(** The destination is absent exactly when no URL was extracted, and is
    otherwise one of the extracted URLs; the confidence is high exactly for
    SELF and COMPETITOR, low exactly when no URL was extracted. *)
Theorem classify_destination_among_urls ad d urls :
  _extract_urls_from_ad ad = Ok urls →
  ∃ r, classify_ad ad d = Ok r
       ∧ (r.(destination_url) = None ↔ urls = [])
       ∧ (∀ u, r.(destination_url) = Some u → u ∈ urls)
       ∧ (r.(confidence) = high ↔ r.(classification) ≠ UNKNOWN)
       ∧ (r.(confidence) = low ↔ urls = []).
Proof.
  intros Hurls. exists (classify_urls urls d).
  split; [apply classify_ad_Ok; by exists urls|].
  unfold classify_urls. destruct urls as [|u urls]; [by repeat split|].
  destruct (classify_loop d (u :: urls)) as [r|] eqn:Hl.
  - destruct (classify_loop_stop _ _ _ Hl)
      as (pre & url & post & Heq & _ & Hdest & Hconf & Hkind).
    rewrite Hdest, Hconf. repeat split; try done.
    + intros u' [= <-]. rewrite Heq. apply elem_of_app. right. by left.
    + intros _. by destruct Hkind as [[-> _] | [-> _]].
  - simpl. repeat split; try done. intros u' [= <-]. by left.
Qed.

(** A SELF destination holds the owned domain; a COMPETITOR destination
    does not, and the competitor domain is the host extracted from it, a
    host that is not ignored. *)
Theorem classification_explains_destination ad d r :
  classify_ad ad d = Ok r →
  (r.(classification) = CONVERTY →
   ∃ url, r.(destination_url) = Some url ∧ mentions d url = true)
  ∧ (r.(classification) = CONCURRENT →
     ∃ url host,
       r.(destination_url) = Some url
       ∧ r.(competitor_domain) = Some host
       ∧ _extract_domain url = Some host
       ∧ mentions d url = false
       ∧ _is_ignored_domain host = false).
Proof.
  intros (urls & _ & ->)%classify_ad_Ok. unfold classify_urls.
  destruct urls as [|u urls]; [done|].
  destruct (classify_loop d (u :: urls)) as [r|] eqn:Hl; [|done].
  destruct (classify_loop_stop _ _ _ Hl)
    as (pre & url & post & _ & _ & Hdest & _ & Hkind).
  destruct Hkind as [[Hc Hm] | (Hc & Hm & host & Hh & Hd & Hi)];
    rewrite Hc; (split; [|]); try done.
  - intros _. by exists url.
  - intros _. by exists url, host.
Qed.

(** With an empty owned domain every ad that has a URL is SELF, with its
    first URL. *)
Theorem empty_owned_domain_claims_every_url ad url urls :
  _extract_urls_from_ad ad = Ok (url :: urls) →
  classify_ad ad EmptyString
  = Ok {| classification := CONVERTY; confidence := high;
          reason := reason_converty EmptyString;
          destination_url := Some url; competitor_domain := None |}.
Proof.
  intros Hurls. apply classify_ad_Ok. eexists; split; [done|].
  unfold classify_urls. rewrite classify_loop_mentions; [done|].
  apply contains_empty.
Qed.

Lemma classify_loop_same_case d1 d2 urls :
  Py.lower d1 = Py.lower d2 →
  match classify_loop d1 urls, classify_loop d2 urls with
  | Some r1, Some r2 =>
      r1.(classification) = r2.(classification)
      ∧ r1.(confidence) = r2.(confidence)
      ∧ r1.(destination_url) = r2.(destination_url)
      ∧ r1.(competitor_domain) = r2.(competitor_domain)
  | None, None => True
  | _, _ => False
  end.
Proof.
  intros Hd. induction urls as [|u urls IH]; [done|]. simpl. rewrite Hd.
  destruct (Py.contains _ _); [done|].
  destruct (_extract_domain u) as [host|]; [|done].
  destruct (negb (Py.nonempty host)); [done|].
  by destruct (_is_ignored_domain host).
Qed.

(** The letter case of the owned domain does not matter: two spellings
    give the same classification, confidence, destination and competitor
    domain (the reason quotes the spelling). *)
Theorem owned_domain_case_insensitive ad d1 d2 r1 :
  Py.lower d1 = Py.lower d2 →
  classify_ad ad d1 = Ok r1 →
  ∃ r2, classify_ad ad d2 = Ok r2
        ∧ r1.(classification) = r2.(classification)
        ∧ r1.(confidence) = r2.(confidence)
        ∧ r1.(destination_url) = r2.(destination_url)
        ∧ r1.(competitor_domain) = r2.(competitor_domain).
Proof.
  intros Hd (urls & Hurls & ->)%classify_ad_Ok.
  exists (classify_urls urls d2).
  split; [apply classify_ad_Ok; by exists urls|].
  unfold classify_urls. destruct urls as [|u urls]; [done|].
  pose proof (classify_loop_same_case d1 d2 (u :: urls) Hd) as Hsame.
  by destruct (classify_loop d1 (u :: urls)), (classify_loop d2 (u :: urls)).
Qed.

Lemma classify_loop_self_wider d d' urls r' :
  Py.contains (Py.lower d) (Py.lower d') = true →
  classify_loop d' urls = Some r' → r'.(classification) = CONVERTY →
  ∃ r, classify_loop d urls = Some r ∧ r.(classification) = CONVERTY.
Proof.
  intros Hsub. induction urls as [|u urls IH]; [done|]. simpl.
  destruct (Py.contains (Py.lower d') (Py.lower u)) eqn:Hm'.
  - rewrite (contains_trans _ _ _ Hsub Hm'). intros _ _. by eexists.
  - destruct (Py.contains (Py.lower d) (Py.lower u)); [intros _ _; by eexists|].
    destruct (_extract_domain u) as [host|]; [|done].
    destruct (negb (Py.nonempty host)); [done|].
    destruct (_is_ignored_domain host); [done|].
    by intros [= <-].
Qed.

(** Matching is by substring: an ad that is SELF for an owned domain stays
    SELF for every owned domain that occurs inside it (for [shop.com] when
    it is SELF for [bigshop.com]). *)
Theorem self_for_every_substring_domain ad d d' r' :
  Py.contains (Py.lower d) (Py.lower d') = true →
  classify_ad ad d' = Ok r' →
  r'.(classification) = CONVERTY →
  ∃ r, classify_ad ad d = Ok r ∧ r.(classification) = CONVERTY.
Proof.
  intros Hsub (urls & Hurls & ->)%classify_ad_Ok Hself.
  exists (classify_urls urls d).
  split; [apply classify_ad_Ok; by exists urls|].
  unfold classify_urls in *. destruct urls as [|u urls]; [done|].
  destruct (classify_loop d' (u :: urls)) as [r'|] eqn:Hl; [|done].
  destruct (classify_loop_self_wider d d' _ _ Hsub Hl Hself) as (r & -> & Hr).
  done.
Qed.

End ClassifierMore.

Section ClassifierEdges.
Context `{UrlLib}.

(** An ad with no snapshot, or whose snapshot has none of the fields
    [link_url], [cards], [caption] and [body], is UNKNOWN with low
    confidence, for want of a URL. *)
Theorem ad_without_url_fields_is_unknown a s d :
  Py.dict_get a "snapshot" (VDict []) = VDict s →
  dict_lookup s "link_url" = None →
  dict_lookup s "cards" = None →
  dict_lookup s "caption" = None →
  dict_lookup s "body" = None →
  classify_ad (VDict a) d = Ok unknown_no_url.
Proof.
  intros Hs Hlink Hcards Hcaption Hbody.
  apply classify_ad_Ok. exists []. split; [|done].
  unfold _extract_urls_from_ad. cbn [Py.get mbind result_bind]. rewrite Hs.
  cbn [Py.get mbind result_bind].
  rewrite !dict_get_lookup, Hlink, Hcards, Hcaption, Hbody. done.
Qed.

(** The ignore test is by substring and blind to letter case: a host that
    contains an ignored host, whatever surrounds it, is ignored too. *)
Theorem ignored_by_substring host host' :
  Py.contains (Py.lower host) (Py.lower host') = true →
  _is_ignored_domain host = true →
  _is_ignored_domain host' = true.
Proof.
  unfold _is_ignored_domain. intros Hsub.
  rewrite !existsb_exists. intros (ignored & Hin & Hc).
  exists ignored. split; [done|]. by apply (contains_trans _ _ _ Hc).
Qed.

(** A host returned by [_extract_domain] is non-empty, in lower case and
    free of colons (no port is left). *)
Theorem extracted_host_shape url host :
  _extract_domain url = Some host →
  Py.nonempty host = true
  ∧ Py.lower host = host
  ∧ Py.contains ":" host = false.
Proof.
  intros Hd. split; [by apply (_extract_domain_nonempty url)|].
  by apply (_extract_domain_shape url).
Qed.

Lemma elem_of_cleaned u l :
  u ∈ cleaned l ↔ Py.nonempty u = true ∧ ∃ c, c ∈ l ∧ u = clean_url c.
Proof.
  unfold cleaned. rewrite list_elem_of_filter, list_elem_of_fmap. naive_solver.
Qed.

(** Every URL the extractor returns is non-empty, has no white space in
    front and none of [.,;:!?)] at its end, and is what cleaning leaves of
    one of the candidates of the ad. *)
Theorem extracted_urls_are_clean ad urls u :
  _extract_urls_from_ad ad = Ok urls →
  u ∈ urls →
  Py.nonempty u = true
  ∧ starts_with Py.isspace u = false
  ∧ ends_with trailing_punctuation u = false
  ∧ ∃ c, c ∈ candidates ad ∧ trimmed c u.
Proof.
  intros Hurls Hu. pose proof (extract_urls_characterised ad) as Hc.
  rewrite Hurls in Hc. destruct Hc as [_ ->].
  apply elem_of_first_occurrences, elem_of_cleaned in Hu.
  destruct Hu as (Hne & c & Hc & ->).
  pose proof (clean_url_trimmed c) as Ht.
  split; [done|].
  destruct Ht as (sb & pu & sa & Heq & Hsb & Hpu & Hsa & Hst & Hen' & Hen).
  split; [by apply starts_with_prefix in Hst|]. split; [done|].
  exists c. split; [done|]. by exists sb, pu, sa.
Qed.

End ClassifierEdges.

(** ** The analyzer *)
Section AnalyzerMore.
Context `{UrlLib} `{ApifyClient}.


(** One turn of the loop files the ad under its classification; a key of
    the dictionary of competitors is an old one or the competitor domain of
    this ad. *)
Lemma tally_ad_files d ad t t' :
  tally_ad d ad t = Ok t' →
  ∃ r c, classify_ad ad d = Ok r ∧ files_as ad r c
         ∧ t'.(tally_classified_ads) = t.(tally_classified_ads) ++ [c]
         ∧ (∀ k, k ∈ map fst t'.(tally_competitors) →
                 k ∈ map fst t.(tally_competitors)
                 ∨ c.(ad_classification) = CONCURRENT
                   ∧ c.(ad_competitor_domain) = Some k).
Proof.
  unfold tally_ad. destruct (classify_ad ad d) as [r|] eqn:Hr; [|done].
  cbn [mbind result_bind].
  destruct ad as [| | | | |a]; try done.
  cbn [Py.get mbind result_bind]. intros [= <-].
  exists r, {| ad_id := Py.dict_get a "ad_archive_id" VNone;
               ad_classification := r.(classification);
               ad_confidence := r.(confidence);
               ad_reason := r.(reason);
               ad_destination_url := r.(destination_url);
               ad_competitor_domain := r.(competitor_domain);
               ad_creation_time := Py.dict_get a "ad_creation_time" VNone;
               ad_delivery_start_time :=
                 Py.dict_get a "ad_delivery_start_time" VNone |}.
  split; [done|]. split.
  { repeat split; simpl; apply dict_get_lookup. }
  split; [by destruct (classification r)|].
  intros k. destruct (classification r) eqn:Hc; simpl; try tauto.
  destruct (competitor_domain r) as [host|]; [|tauto].
  destruct (Py.nonempty host); [|tauto].
  rewrite counter_set_keys, elem_of_app.
  intros [?|Hk]; [tauto|]. right.
  destruct (counter_mem _ _); [by apply elem_of_nil in Hk|].
  apply list_elem_of_singleton in Hk as ->. done.
Qed.


Lemma tally_loop_files d ads t t' :
  tally_loop d ads t = Ok t' →
  ∃ cs, t'.(tally_classified_ads) = t.(tally_classified_ads) ++ cs
        ∧ Forall2 (fun ad c => ∃ r, classify_ad ad d = Ok r ∧ files_as ad r c)
                  ads cs
        ∧ (∀ k, k ∈ map fst t'.(tally_competitors) →
                k ∈ map fst t.(tally_competitors)
                ∨ ∃ c, c ∈ cs ∧ c.(ad_classification) = CONCURRENT
                       ∧ c.(ad_competitor_domain) = Some k).
Proof.
  revert t. induction ads as [|ad ads IH]; intros t; simpl.
  - intros [= <-]. exists []. rewrite app_nil_r. split; [done|].
    split; [constructor | tauto].
  - destruct (tally_ad d ad t) as [t1|] eqn:Hstep; [|done].
    cbn [mbind result_bind]. intros Hloop.
    destruct (tally_ad_files _ _ _ _ Hstep) as (r & c & Hr & Hf & Hads & Hk).
    destruct (IH _ Hloop) as (cs & Hads' & Hall & Hk').
    exists (c :: cs). split; [by rewrite Hads', Hads, <- app_assoc|].
    split; [constructor; [by exists r | done]|].
    intros k Hin. destruct (Hk' k Hin) as [Hin1 | (c' & Hc' & Hcc)].
    + destruct (Hk k Hin1) as [?|?]; [by left|].
      right. exists c. split; [by left | done].
    + right. exists c'. split; [by right | done].
Qed.


(** The facts on the counts of a page that the report relies on. *)
Lemma analyze_page_counts page d pa :
  _analyze_page page d = Ok pa →
  pa.(total_ads)
  = (pa.(converty_ads) + pa.(concurrent_ads) + pa.(unknown_ads))%Z
  ∧ pa.(total_ads)
    = Z.of_nat (length (get_all_ads_by_page_id page.(fb_page_id)))
  ∧ sum_by ads_count pa.(competitors) = pa.(concurrent_ads)
  ∧ NoDup (map domain pa.(competitors))
  ∧ (∀ c, c ∈ pa.(competitors) →
          c.(ads_count)
          = Z.of_nat (length (ads_against c.(domain) pa.(classified_ads)))
          ∧ ∃ a, a ∈ pa.(classified_ads)
                 ∧ a.(ad_classification) = CONCURRENT
                 ∧ a.(ad_competitor_domain) = Some c.(domain)).
Proof.
  unfold _analyze_page.
  destruct (tally_loop d _ empty_tally) as [t|] eqn:Hloop; [|done].
  cbn [mbind result_bind]. intros [= <-]. simpl.
  destruct (tally_loop_consistent _ _ _ _ Hloop tally_consistent_empty)
    as [(Hconv & Hconc & Hunk & Hsum & Hnd & Hget & Htot) Hlen].
  destruct (tally_loop_files _ _ _ _ Hloop) as (cs & Hcs & _ & Hkeys).
  simpl in Hlen, Hcs.
  set (mk := fun '(d, count) => {| domain := d; ads_count := count |}).
  assert (∀ l, map domain (map mk l) = map fst l) as Hdom.
  { intros l. rewrite map_map. apply map_ext. by intros []. }
  split; [lia|]. split; [lia|]. split; [|split].
  - rewrite sum_by_map, <- Htot.
    rewrite <- (sum_by_perm snd _ _ (sorted_desc_perm (tally_competitors t))).
    clear. induction (sorted_desc _) as [|[k v] l IH]; simpl; [done|].
    by rewrite IH.
  - by rewrite Hdom, sorted_desc_perm.
  - intros c [[k v] [-> Hin]]%list_elem_of_fmap. simpl.
    rewrite sorted_desc_perm in Hin. split.
    + rewrite <- Hget. symmetry. by apply counter_get_present.
    + destruct (Hkeys k) as [Hk | (a & Ha & Hc)].
      * apply list_elem_of_fmap. by exists (k, v).
      * by apply elem_of_nil in Hk.
      * exists a. by rewrite Hcs.
Qed.

Lemma analyze_page_files_ads page d pa :
  _analyze_page page d = Ok pa →
  Forall2 (fun ad c => ∃ r, classify_ad ad d = Ok r ∧ files_as ad r c)
          (get_all_ads_by_page_id page.(fb_page_id)) pa.(classified_ads).
Proof.
  unfold _analyze_page.
  destruct (tally_loop d _ empty_tally) as [t|] eqn:Hloop; [|done].
  cbn [mbind result_bind]. intros [= <-]. simpl.
  destruct (tally_loop_files _ _ _ _ Hloop) as (cs & Hcs & Hall & _).
  simpl in Hcs. by rewrite Hcs.
Qed.

Lemma analyze_page_sorted page d pa :
  _analyze_page page d = Ok pa →
  StronglySorted (fun a b => (b.(ads_count) ≤ a.(ads_count))%Z)
                 pa.(competitors).
Proof.
  unfold _analyze_page.
  destruct (tally_loop d _ empty_tally) as [t|]; [|done].
  cbn [mbind result_bind]. intros [= <-]. simpl.
  pose proof (sorted_desc_sorted (tally_competitors t)) as Hs.
  induction Hs as [|[k v] l _ IH Hall]; simpl; constructor; [done|].
  apply Forall_fmap. eapply Forall_impl; [exact Hall|]. by intros [].
Qed.


(** The competitors of a page stand in descending order of count; each
    was met in at least one ad of the page, and its domain is a host as
    [_extract_domain] returns it (non-empty, lower case, without port) that
    is not on the ignore list. *)
Theorem page_competitors_ranked page d pa :
  _analyze_page page d = Ok pa →
  StronglySorted (fun a b => (b.(ads_count) ≤ a.(ads_count))%Z)
                 pa.(competitors)
  ∧ (∀ c, c ∈ pa.(competitors) →
          (1 ≤ c.(ads_count))%Z
          ∧ Py.nonempty c.(domain) = true
          ∧ Py.lower c.(domain) = c.(domain)
          ∧ Py.contains ":" c.(domain) = false
          ∧ _is_ignored_domain c.(domain) = false).
Proof.
  intros Hpa. split; [by apply (analyze_page_sorted page d)|].
  - intros c Hc.
    destruct (analyze_page_counts _ _ _ Hpa) as (_ & _ & _ & _ & Hcomp).
    destruct (Hcomp c Hc) as (Hcount & a & Ha & Hkind & Hdom).
    split.
    { rewrite Hcount. unfold ads_against.
      assert (a ∈ filter (fun a => a.(ad_classification) = CONCURRENT
                 ∧ a.(ad_competitor_domain) = Some c.(domain))
                (classified_ads pa)) as Hin
        by (by apply list_elem_of_filter).
      destruct (filter _ _); [by apply elem_of_nil in Hin | simpl; lia]. }
    pose proof (analyze_page_files_ads page d pa Hpa) as Hall.
    apply list_elem_of_lookup in Ha as [i Hi].
    destruct (Forall2_lookup_r _ _ _ _ _ Hall Hi) as (ad & _ & r & Hr & Hf).
    destruct Hf as (Hfc & _ & _ & _ & Hfd & _).
    rewrite Hfc in Hkind. rewrite Hfd in Hdom.
    apply classify_ad_Ok in Hr as (urls & _ & ->). unfold classify_urls in *.
    destruct urls as [|u urls]; [done|].
    destruct (classify_loop d (u :: urls)) as [r|] eqn:Hl; [|done].
    destruct (classify_loop_stop _ _ _ Hl)
      as (_ & url & _ & _ & _ & _ & _ & Hcase).
    destruct Hcase as [[Hself _] | (_ & _ & host & Hh & Hd & Hign)];
      [congruence|].
    assert (host = domain c) as -> by congruence.
    pose proof (_extract_domain_nonempty _ _ Hd).
    pose proof (_extract_domain_shape _ _ Hd) as [? ?]. done.
Qed.

End AnalyzerMore.

(** ** The report of a client *)
Section ReportMore.
Context `{UrlLib} `{ApifyClient}.

Lemma Forall2_Ok_unique {A B} (f : A → result B) l k1 k2 :
  Forall2 (fun x y => f x = Ok y) l k1 →
  Forall2 (fun x y => f x = Ok y) l k2 → k1 = k2.
Proof.
  intros H1. revert k2. induction H1 as [|x y l k1 Hy _ IH]; intros k2 H2;
    inversion H2; subst; [done|].
  f_equal; [congruence | by apply IH].
Qed.

Lemma pages_loop_spec d pages acc res :
  pages_loop d pages acc = Ok res ↔
  ∃ pas, Forall2 (fun page pa => _analyze_page page d = Ok pa) pages pas
         ∧ res = acc ++ pas.
Proof.
  revert acc. induction pages as [|page pages IH]; intros acc; simpl.
  - split.
    + intros [= <-]. exists []. split; [constructor | by rewrite app_nil_r].
    + intros (pas & ->%Forall2_nil_inv_l & ->). by rewrite app_nil_r.
  - destruct (_analyze_page page d) as [pa|] eqn:Hpa; cbn [mbind result_bind].
    + rewrite IH. split.
      * intros (pas & Hall & ->). exists (pa :: pas).
        split; [by constructor | by rewrite <- app_assoc].
      * intros (pas & Hall & ->).
        apply Forall2_cons_inv_l in Hall as (pa' & pas' & Hpa' & Hall & ->).
        assert (pa' = pa) as -> by congruence.
        exists pas'. split; [done | by rewrite <- app_assoc].
    + split; [done|]. intros (pas & Hall & _).
      apply Forall2_cons_inv_l in Hall as (pa' & pas' & Hpa' & _). congruence.
Qed.

Lemma sites_loop_spec site_mappings acc res :
  sites_loop site_mappings acc = Ok res ↔
  ∃ pas,
    Forall2 (fun sp pa => _analyze_page sp.2 sp.1 = Ok pa)
            (flat_map (fun site_mapping =>
                         map (fun page => (site_mapping.(site), page))
                             site_mapping.(fb_pages))
                      site_mappings) pas
    ∧ res = acc ++ pas.
Proof.
  revert acc. induction site_mappings as [|sm sms IH]; intros acc; simpl.
  - split.
    + intros [= <-]. exists []. split; [constructor | by rewrite app_nil_r].
    + intros (pas & ->%Forall2_nil_inv_l & ->). by rewrite app_nil_r.
  - destruct (pages_loop (site sm) (fb_pages sm) acc) as [acc1|] eqn:Hp;
      cbn [mbind result_bind].
    + apply pages_loop_spec in Hp as (pas1 & Hall1 & ->).
      rewrite IH. split.
      * intros (pas & Hall & ->). exists (pas1 ++ pas).
        split; [|by rewrite app_assoc].
        apply Forall2_app; [|done]. by apply Forall2_fmap_l.
      * intros (pas & Hall & ->).
        apply Forall2_app_inv_l in Hall as (pas1' & pas2 & Hall1' & Hall2 & ->).
        assert (pas1' = pas1) as ->.
        { apply (Forall2_Ok_unique (fun sp => _analyze_page sp.2 sp.1)
                   _ _ _ Hall1').
          by apply Forall2_fmap_l. }
        exists pas2. split; [done | by rewrite app_assoc].
    + split; [done|]. intros (pas & Hall & _). exfalso.
      apply Forall2_app_inv_l in Hall as (pas1 & pas2 & Hall1 & _ & _).
      apply Forall2_fmap_l in Hall1.
      assert (pages_loop (site sm) (fb_pages sm) acc = Ok (acc ++ pas1))
        by (apply pages_loop_spec; by exists pas1).
      congruence.
Qed.

Lemma analyze_client_spec mapping_data now report :
  analyze_client mapping_data now = Ok report ↔
  ∃ pas,
    Forall2 (fun sp pa => _analyze_page sp.2 sp.1 = Ok pa)
            (mapped_pages mapping_data) pas
    ∧ report = make_report mapping_data.(client_id) now pas.
Proof.
  unfold analyze_client, mapped_pages.
  destruct (sites_loop (mappings mapping_data) []) as [pas|] eqn:Hs;
    cbn [mbind result_bind].
  - apply sites_loop_spec in Hs as (pas' & Hall & ->). simpl. split.
    + intros [= <-]. by exists pas'.
    + intros (pas & Hall' & ->). do 2 f_equal.
      apply (Forall2_Ok_unique (fun sp => _analyze_page sp.2 sp.1)
               _ _ _ Hall Hall').
  - split; [done|]. intros (pas & Hall & _). exfalso.
    assert (sites_loop (mappings mapping_data) [] = Ok ([] ++ pas))
      by (apply sites_loop_spec; by exists pas).
    congruence.
Qed.

(** [analyze_client] analyses the mapped pages one by one, site after site
    and page after page, each against the site it is mapped to: it returns
    exactly when [_analyze_page] returns for every one of them, and the
    report is then built from these analyses in that order. *)
Theorem analyze_client_page_by_page mapping_data now report :
  analyze_client mapping_data now = Ok report ↔
  ∃ page_analyses,
    Forall2 (fun sp pa => _analyze_page sp.2 sp.1 = Ok pa)
            (mapped_pages mapping_data) page_analyses
    ∧ report = make_report mapping_data.(client_id) now page_analyses.
Proof. apply analyze_client_spec. Qed.

Lemma sum_by_flat_map {A B} (f : B → Z) (g : A → list B) l :
  sum_by f (flat_map g l) = sum_by (fun x => sum_by f (g x)) l.
Proof.
  induction l as [|x l IH]; simpl; [done|]. by rewrite sum_by_app, IH.
Qed.

Lemma sum_by_nonneg {A} (f : A → Z) l :
  Forall (fun x => (0 ≤ f x)%Z) l → (0 ≤ sum_by f l)%Z.
Proof. induction 1; simpl; lia. Qed.

Lemma sum_by_take {A} (f : A → Z) n l :
  Forall (fun x => (0 ≤ f x)%Z) l → (sum_by f (take n l) ≤ sum_by f l)%Z.
Proof.
  intros Hall. rewrite <- (take_drop n l) at 2. rewrite sum_by_app.
  assert (0 ≤ sum_by f (drop n l))%Z; [|lia].
  apply sum_by_nonneg. rewrite <- (take_drop n l) in Hall.
  by apply Forall_app in Hall as [_ ?].
Qed.

Lemma foldl_add_competitor_total es :
  sum_by snd (foldl add_competitor [] es) = sum_by ads_count es.
Proof.
  induction es as [|e es IH] using rev_ind; [done|].
  rewrite foldl_app, sum_by_app. simpl.
  rewrite add_competitor_eq, counter_set_total, IH. lia.
Qed.

Lemma aggregate_total pas :
  sum_by top_total_ads (_aggregate_competitors pas)
  = sum_by ads_count (competitor_entries pas).
Proof.
  unfold _aggregate_competitors. rewrite merge_competitors_entries.
  rewrite sum_by_map, <- foldl_add_competitor_total.
  rewrite <- (sum_by_perm snd _ _ (sorted_desc_perm _)).
  induction (sorted_desc _) as [|[k v] l IH]; simpl; [done|]. by rewrite IH.
Qed.

(** The counts of a report add up.  The number of pages analysed is the
    number of mapped pages; [total_ads] is the number of ads fetched over
    all of them and is the sum of the three other global counts; the counts
    of the aggregated competitors add up to the global [concurrent_ads],
    so those of [top_competitors], its first 20 entries, to at most that. *)
Theorem report_totals mapping_data now report :
  analyze_client mapping_data now = Ok report →
  let stats := report.(global_stats) in
  report.(pages_analyzed) = Z.of_nat (length (mapped_pages mapping_data))
  ∧ stats.(stats_total_ads)
    = Z.of_nat (length (flat_map
                          (fun sp => get_all_ads_by_page_id sp.2.(fb_page_id))
                          (mapped_pages mapping_data)))
  ∧ stats.(stats_total_ads)
    = (stats.(stats_converty_ads) + stats.(stats_concurrent_ads)
       + stats.(stats_unknown_ads))%Z
  ∧ sum_by top_total_ads (_aggregate_competitors report.(page_details))
    = stats.(stats_concurrent_ads)
  ∧ (sum_by top_total_ads report.(top_competitors)
     ≤ stats.(stats_concurrent_ads))%Z.
Proof.
  intros (pas & Hall & ->)%analyze_client_spec. simpl.
  assert (sum_by top_total_ads (_aggregate_competitors pas)
          = sum_by concurrent_ads pas) as Hagg.
  { rewrite aggregate_total. unfold competitor_entries.
    rewrite sum_by_flat_map. clear -Hall.
    induction Hall as [|sp pa sps pas Hpa _ IH]; simpl; [done|].
    destruct (analyze_page_counts _ _ _ Hpa) as (_ & _ & -> & _). by rewrite IH. }
  split; [by rewrite (Forall2_length _ _ _ Hall)|].
  split; [|split; [|split; [done|]]].
  - clear -Hall. induction Hall as [|sp pa sps pas Hpa _ IH]; simpl; [done|].
    destruct (analyze_page_counts _ _ _ Hpa) as (_ & -> & _).
    rewrite length_app, IH. lia.
  - clear -Hall. induction Hall as [|sp pa sps pas Hpa _ IH]; simpl; [done|].
    destruct (analyze_page_counts _ _ _ Hpa) as (-> & _). lia.
  - rewrite <- Hagg. apply sum_by_take.
    apply Forall_forall. intros t Ht.
    assert (t ∈ _aggregate_competitors pas) as Hin by done. clear Ht.
    unfold _aggregate_competitors in Hin.
    apply list_elem_of_fmap in Hin as ([k v] & -> & Hin). simpl.
    rewrite sorted_desc_perm, merge_competitors_entries in Hin.
    apply merged_values in Hin as ->. unfold aggregate_count.
    apply sum_by_nonneg, Forall_forall. intros c Hc.
    apply list_elem_of_filter in Hc as [_ Hc]. unfold competitor_entries in Hc.
    apply list_elem_of_In, in_flat_map in Hc as (pa & Hpa & Hc).
    apply list_elem_of_In in Hpa, Hc.
    apply list_elem_of_lookup in Hpa as [i Hi].
    destruct (Forall2_lookup_r _ _ _ _ _ Hall Hi) as (sp & _ & Hsp).
    destruct (analyze_page_counts _ _ _ Hsp) as (_ & _ & _ & _ & Hcomp).
    destruct (Hcomp c Hc) as [-> _]. lia.
Qed.

End ReportMore.

(** ** Aggregation over pages *)
Section AggregateMore.
Context `{UrlLib} `{ApifyClient}.

Lemma counter_set_absent (m : Counter) k v :
  k ∉ map fst m → counter_set m k v = m ++ [(k, v)].
Proof.
  induction m as [|[k' v'] m IH]; simpl; [done|].
  rewrite not_elem_of_cons. intros [Hne Hnot].
  destruct (String.eqb_spec k' k) as [->|_]; [done|]. by rewrite IH.
Qed.

(** Entries of distinct domains are merged into themselves. *)
Lemma foldl_add_competitor_distinct es :
  NoDup (map domain es) →
  foldl add_competitor [] es = map (fun c => (c.(domain), c.(ads_count))) es.
Proof.
  induction es as [|e es IH] using rev_ind; [done|].
  rewrite map_app, NoDup_app. intros (Hnd & Hnot & _).
  rewrite foldl_app, map_app, IH by done. simpl.
  assert (domain e ∉ map fst (map (fun c => (domain c, ads_count c)) es))
    as Hfresh.
  { rewrite map_map. simpl. intros Hin. apply (Hnot _ Hin). by left. }
  rewrite add_competitor_eq, counter_get_absent, counter_set_absent by done.
  done.
Qed.

(** Sorting a list that is in descending order leaves it as it is. *)
Lemma sorted_desc_fixed l :
  StronglySorted (fun a b => (snd b ≤ snd a)%Z) l → sorted_desc l = l.
Proof.
  induction 1 as [|x l _ IH Hall]; [done|].
  unfold sorted_desc in *. simpl. rewrite IH.
  destruct Hall as [|y l Hy _]; simpl; [done|].
  by rewrite (proj2 (Z.leb_le _ _) Hy).
Qed.

(** For a client with a single page the aggregated competitors are the
    competitors of that page, entry by entry and in the same order. *)
Theorem aggregate_of_single_page page d pa :
  _analyze_page page d = Ok pa →
  _aggregate_competitors [pa] = map as_top pa.(competitors).
Proof.
  intros Hpa.
  destruct (analyze_page_counts _ _ _ Hpa) as (_ & _ & _ & Hnd & _).
  pose proof (analyze_page_sorted _ _ _ Hpa) as Hs.
  unfold _aggregate_competitors. rewrite merge_competitors_entries.
  unfold competitor_entries. simpl. rewrite app_nil_r.
  rewrite foldl_add_competitor_distinct by done.
  rewrite sorted_desc_fixed.
  - rewrite map_map. apply map_ext. by intros [].
  - clear -Hs. induction Hs as [|c l _ IH Hall]; simpl; constructor; [done|].
    apply Forall_fmap. eapply Forall_impl; [exact Hall|]. done.
Qed.

Lemma elem_of_merged es k v :
  (k, v) ∈ foldl add_competitor [] es
  ↔ k ∈ map domain es ∧ v = aggregate_count es k.
Proof.
  destruct (merged_keys_counts es) as [Hk _]. split.
  - intros Hin. split; [|by apply merged_values].
    apply elem_of_first_occurrences. rewrite <- Hk.
    apply list_elem_of_fmap. by exists (k, v).
  - intros [Hin ->]. apply elem_of_first_occurrences in Hin.
    rewrite <- Hk in Hin.
    apply list_elem_of_fmap in Hin as ([k' v'] & -> & Hin). simpl.
    by rewrite <- (merged_values _ _ _ Hin).
Qed.

Lemma aggregate_count_perm es es' k :
  es ≡ₚ es' → aggregate_count es k = aggregate_count es' k.
Proof.
  intros Hp. unfold aggregate_count. apply sum_by_perm. by rewrite Hp.
Qed.

(** The order of the pages does not change what is aggregated: the same
    domains with the same counts, whatever the order in which the pages
    were analysed (only the order among domains may change). *)
Theorem aggregate_independent_of_page_order pas pas' :
  pas ≡ₚ pas' →
  _aggregate_competitors pas ≡ₚ _aggregate_competitors pas'.
Proof.
  intros Hp. unfold _aggregate_competitors.
  apply Permutation_map. rewrite !sorted_desc_perm.
  rewrite !merge_competitors_entries.
  assert (competitor_entries pas ≡ₚ competitor_entries pas') as He
    by (unfold competitor_entries; by rewrite Hp).
  apply NoDup_Permutation.
  - apply (NoDup_fmap_1 fst).
    destruct (merged_keys_counts (competitor_entries pas)) as [Hk _].
    change (NoDup (map fst (foldl add_competitor []
                              (competitor_entries pas)))).
    rewrite Hk. apply NoDup_first_occurrences.
  - apply (NoDup_fmap_1 fst).
    destruct (merged_keys_counts (competitor_entries pas')) as [Hk _].
    change (NoDup (map fst (foldl add_competitor []
                              (competitor_entries pas')))).
    rewrite Hk. apply NoDup_first_occurrences.
  - intros [k v]. rewrite !elem_of_merged.
    rewrite (aggregate_count_perm _ _ k He).
    assert (map domain (competitor_entries pas)
            ≡ₚ map domain (competitor_entries pas')) as ->
      by (by apply Permutation_map).
    done.
Qed.

End AggregateMore.

(** ** The site mapper *)
Section MapperMore.
Context `{AdsCollector} `{PageExtractor}.

Lemma confidence_loop_spec pages total mapped :
  confidence_loop pages total = Ok mapped
  ↔ Forall2 (maps_page total) pages mapped.
Proof.
  revert mapped. induction pages as [|p pages IH]; intros mapped; simpl.
  - split; [intros [= <-]; constructor | by intros ->%Forall2_nil_inv_l].
  - destruct (_calculate_confidence (extracted_ads_count p) total)
      as [c|e] eqn:Hc; cbn [mbind result_bind].
    + destruct (confidence_loop pages total) as [ms|e] eqn:Hl;
        cbn [mbind result_bind].
      * split.
        -- intros [= <-]. constructor; [by repeat split | by apply IH].
        -- intros (m & ms' & (Hid & Hname & Hcount & Hconf) & Hall & ->)
             %Forall2_cons_inv_l.
           apply IH in Hall as [= ->]. rewrite Hc in Hconf.
           injection Hconf as ->. destruct m; simpl in *. by subst.
      * split; [done|].
        intros (m & ms' & _ & Hall & _)%Forall2_cons_inv_l.
        by apply IH in Hall.
    + split; [done|].
      intros (m & ms' & (_ & _ & _ & Hconf) & _)%Forall2_cons_inv_l.
      by rewrite Hc in Hconf.
Qed.

Lemma confidence_loop_returns pages total :
  (∃ mapped, confidence_loop pages total = Ok mapped)
  ↔ Forall (fun page =>
              ∃ c, _calculate_confidence page.(extracted_ads_count) total
                   = Ok c) pages.
Proof.
  induction pages as [|p pages IH]; simpl.
  - split; [constructor | by eexists].
  - rewrite Forall_cons, <- IH.
    destruct (_calculate_confidence (extracted_ads_count p) total) as [c|e];
      cbn [mbind result_bind].
    + destruct (confidence_loop pages total) as [ms|e];
        cbn [mbind result_bind].
      * split; [intros _; split; by eexists | intros _; by eexists].
      * split; [by intros [? ?] | by intros [_ [? ?]]].
    + split; [by intros [? ?] | by intros [[? ?] _]].
Qed.

Lemma sites_mapping_loop_spec sites acc res :
  sites_mapping_loop sites acc = Ok res
  ↔ ∃ mappings, Forall2 maps_site sites mappings ∧ res = acc ++ mappings.
Proof.
  revert acc. induction sites as [|site sites IH]; intros acc; simpl.
  - split.
    + intros [= <-]. exists []. split; [constructor | by rewrite app_nil_r].
    + intros (ms & ->%Forall2_nil_inv_l & ->). by rewrite app_nil_r.
  - set (ads := collect_ads_for_domain site).
    destruct (confidence_loop (extract_pages_from_ads ads)
                (Z.of_nat (length ads))) as [pages|e] eqn:Hl;
      cbn [mbind result_bind].
    + rewrite IH. apply confidence_loop_spec in Hl. split.
      * intros (ms & Hall & ->). eexists (_ :: ms).
        split; [|by rewrite <- app_assoc].
        constructor; [|done]. by repeat split.
      * intros (ms & Hall & ->).
        apply Forall2_cons_inv_l in Hall
          as (m & ms' & (Hsite & Htotal & Hpages) & Hall & ->).
        exists ms'. split; [done|]. rewrite <- app_assoc. simpl.
        do 2 f_equal. fold ads in Htotal, Hpages.
        apply confidence_loop_spec in Hpages.
        assert (Ok pages = Ok (map_fb_pages m)) as [= ->].
        { rewrite <- Hpages. symmetry. by apply confidence_loop_spec. }
        destruct m; simpl in *. by subst.
    + split; [done|]. intros (ms & Hall & _). exfalso.
      apply Forall2_cons_inv_l in Hall as (m & _ & (_ & _ & Hpages) & _).
      apply confidence_loop_spec in Hpages. fold ads in Hpages. congruence.
Qed.

Lemma map_client_sites_spec client_data result :
  map_client_sites client_data = Ok result
  ↔ result.(mapping_client_id) = client_data.(data_client_id)
    ∧ result.(mapping_total_sites)
      = Z.of_nat (length client_data.(data_sites))
    ∧ Forall2 maps_site client_data.(data_sites) result.(mapping_mappings).
Proof.
  unfold map_client_sites.
  destruct (sites_mapping_loop (data_sites client_data) []) as [ms|e] eqn:Hl;
    cbn [mbind result_bind].
  - apply sites_mapping_loop_spec in Hl as (ms' & Hall & ->). simpl. split.
    + by intros [= <-].
    + intros (Hid & Htotal & Hall'). destruct result; simpl in *. subst.
      do 2 f_equal.
      assert (sites_mapping_loop (data_sites client_data) []
              = Ok ([] ++ mapping_mappings0)) as Hloop
        by (apply sites_mapping_loop_spec; by exists mapping_mappings0).
      assert (sites_mapping_loop (data_sites client_data) []
              = Ok ([] ++ ms')) as Hloop'
        by (apply sites_mapping_loop_spec; by exists ms').
      simpl in Hloop, Hloop'. congruence.
  - split; [done|]. intros (_ & _ & Hall). exfalso.
    assert (sites_mapping_loop (data_sites client_data) []
            = Ok ([] ++ mapping_mappings result)) as Hloop
      by (apply sites_mapping_loop_spec; by exists (mapping_mappings result)).
    congruence.
Qed.

(** Counts between zero and the total never overflow. *)
Lemma calculate_confidence_returns page_ads total_ads :
  (0 ≤ page_ads < 2 ^ 1023)%Z → (0 ≤ total_ads)%Z →
  ∃ c, _calculate_confidence page_ads total_ads = Ok c.
Proof.
  intros [Hp Hp'] Ht. destruct (decide (total_ads = 0%Z)) as [->|Hne].
  { by exists low. }
  rewrite calculate_confidence_cases by lia.
  pose proof overflow_from_large as Hbig.
  assert (overflow_from * 1 ≤ overflow_from * total_ads)%Z as Hmul.
  { apply Z.mul_le_mono_nonneg_l; [|lia]. etrans; [|exact Hbig]. done. }
  rewrite (proj2 (Z.leb_gt _ _)) by lia.
  destruct (_ <=? _)%Z; [by eexists|]. destruct (_ <? _)%Z; by eexists.
Qed.

(** The mapping of a client, when [map_client_sites] returns, has one
    entry for each of its sites, in their order, and [total_sites] counts
    them.  The entry of a site records the number of ads collected for it
    and the pages extracted from these ads, in the extractor's order, each
    with the confidence of its count against that number; when no ad was
    collected, every page is of low confidence.  [map_client_sites] returns
    exactly when [_calculate_confidence] returns for every page, which it
    does for counts from 0 to below 2^1023. *)
Theorem map_client_sites_shape client_data :
  (∀ result, map_client_sites client_data = Ok result →
     result.(mapping_client_id) = client_data.(data_client_id)
     ∧ result.(mapping_total_sites)
       = Z.of_nat (length result.(mapping_mappings))
     ∧ Forall2
         (fun site mapping =>
            let ads := collect_ads_for_domain site in
            mapping.(map_site) = site
            ∧ mapping.(map_total_ads) = Z.of_nat (length ads)
            ∧ Forall2
                (fun page mapped =>
                   mapped.(mapping_page_id) = page.(extracted_page_id)
                   ∧ mapped.(mapping_page_name) = page.(extracted_page_name)
                   ∧ mapped.(mapping_ads_count) = page.(extracted_ads_count)
                   ∧ _calculate_confidence page.(extracted_ads_count)
                                           mapping.(map_total_ads)
                     = Ok mapped.(mapping_confidence))
                (extract_pages_from_ads ads) mapping.(map_fb_pages)
            ∧ (ads = [] →
               Forall (fun mapped => mapped.(mapping_confidence) = low)
                      mapping.(map_fb_pages)))
         client_data.(data_sites) result.(mapping_mappings))
  ∧ ((∃ result, map_client_sites client_data = Ok result)
     ↔ Forall (fun site =>
                 let ads := collect_ads_for_domain site in
                 Forall (fun page =>
                           ∃ c, _calculate_confidence
                                  page.(extracted_ads_count)
                                  (Z.of_nat (length ads)) = Ok c)
                        (extract_pages_from_ads ads))
              client_data.(data_sites))
  ∧ (Forall (fun site =>
               Forall (fun page =>
                         (0 ≤ page.(extracted_ads_count) < 2 ^ 1023)%Z)
                      (extract_pages_from_ads (collect_ads_for_domain site)))
            client_data.(data_sites) →
     ∃ result, map_client_sites client_data = Ok result).
Proof.
  assert ((∃ result, map_client_sites client_data = Ok result)
     ↔ Forall (fun site =>
                 let ads := collect_ads_for_domain site in
                 Forall (fun page =>
                           ∃ c, _calculate_confidence
                                  page.(extracted_ads_count)
                                  (Z.of_nat (length ads)) = Ok c)
                        (extract_pages_from_ads ads))
              client_data.(data_sites)) as Hreturns.
  { split.
    - intros [result (_ & _ & Hall)%map_client_sites_spec].
      induction Hall as [|site m sites ms (_ & _ & Hpages) _ IH];
        constructor; [|done].
      apply confidence_loop_returns. eexists.
      by apply confidence_loop_spec.
    - intros Hall.
      assert (∃ ms, Forall2 maps_site (data_sites client_data) ms)
        as [ms Hms].
      { induction Hall as [|site sites Hsite _ [ms IH]]; [by exists []|].
        apply confidence_loop_returns in Hsite as [pages Hpages].
        apply confidence_loop_spec in Hpages.
        exists ({| map_site := site;
                   map_total_ads :=
                     Z.of_nat (length (collect_ads_for_domain site));
                   map_fb_pages := pages |} :: ms).
        constructor; [|done]. by repeat split. }
      exists {| mapping_client_id := data_client_id client_data;
                mapping_total_sites :=
                  Z.of_nat (length (data_sites client_data));
                mapping_mappings := ms |}.
      by apply map_client_sites_spec. }
  split; [|split; [done|]].
  - intros result (Hid & Htotal & Hall)%map_client_sites_spec.
    split; [done|].
    split; [by rewrite Htotal, (Forall2_length _ _ _ Hall)|].
    eapply Forall2_impl; [exact Hall|].
    intros site m (Hsite & Htot & Hpages). simpl.
    split; [done|]. split; [done|]. split.
    + rewrite Htot. exact Hpages.
    + intros Hnone. rewrite Hnone in Hpages. simpl in Hpages.
      clear -Hpages.
      induction Hpages as [|p mp ps mps (_ & _ & _ & Hc) _ IH];
        constructor; [|done].
      by injection Hc.
  - intros Hall. apply Hreturns.
    eapply Forall_impl; [exact Hall|]. intros site Hsite. simpl.
    eapply Forall_impl; [exact Hsite|]. intros page Hpage.
    apply calculate_confidence_returns; [done | lia].
Qed.

(** What an answer says about the counts. *)
Lemma confidence_cross page_ads total_ads c :
  (0 ≤ page_ads)%Z → (0 < total_ads)%Z →
  _calculate_confidence page_ads total_ads = Ok c →
  (c = high → (12610078956637387 * total_ads ≤ 2 ^ 54 * page_ads)%Z)
  ∧ (c ≠ low → (10808639105689189 * total_ads < 2 ^ 55 * page_ads)%Z).
Proof.
  intros Hp Ht. rewrite calculate_confidence_cases by done.
  destruct (_ <=? _)%Z; [done|].
  destruct (Z.leb_spec (12610078956637387 * total_ads) (2 ^ 54 * page_ads)).
  - intros [= <-]. split; [done|]. intros _.
    change (2 ^ 55)%Z with (2 * 2 ^ 54)%Z. lia.
  - destruct (Z.ltb_spec (10808639105689189 * total_ads) (2 ^ 55 * page_ads));
      intros [= <-]; by split.
Qed.

Lemma mapped_pages_counts pages mapped total :
  (0 < total)%Z →
  Forall (fun page => (0 ≤ page.(extracted_ads_count))%Z) pages →
  Forall2 (maps_page total) pages mapped →
  (12610078956637387 * total
   * Z.of_nat (length (filter (fun m => m.(mapping_confidence) = high) mapped))
   ≤ 2 ^ 54 * sum_by extracted_ads_count pages)%Z
  ∧ (10808639105689189 * total
     * Z.of_nat (length (filter (fun m => m.(mapping_confidence) ≠ low)
                                mapped))
     ≤ 2 ^ 55 * sum_by extracted_ads_count pages)%Z.
Proof.
  intros Hpos Hnonneg Hall. revert Hnonneg.
  induction Hall as [|p m ps ms (_ & _ & _ & Hc) _ IH]; intros Hnonneg.
  { simpl. lia. }
  apply Forall_cons in Hnonneg as [Hp Hps].
  destruct (IH Hps) as [IHh IHl].
  destruct (confidence_cross _ _ _ Hp Hpos Hc) as [Hh Hl].
  rewrite !filter_cons. simpl.
  change (2 ^ 54)%Z with 18014398509481984%Z in *.
  change (2 ^ 55)%Z with 36028797018963968%Z in *.
  destruct (decide (mapping_confidence m = high)) as [Hhigh|Hhigh];
    destruct (decide (mapping_confidence m ≠ low)) as [Hlow|Hlow];
    simpl; try specialize (Hh Hhigh); try specialize (Hl Hlow); lia.
Qed.

(** When the extractor's counts are non-negative and add up to no more
    than the number of ads collected for the site, [map_client_sites]
    returns, and at most one page of a site is of high confidence and at
    most three are not of low confidence. *)
Theorem confident_pages_are_few client_data :
  Forall (fun site =>
            let ads := collect_ads_for_domain site in
            let pages := extract_pages_from_ads ads in
            Forall (fun page => (0 ≤ page.(extracted_ads_count))%Z) pages
            ∧ (sum_by extracted_ads_count pages ≤ Z.of_nat (length ads))%Z)
         client_data.(data_sites) →
  ∃ result,
    map_client_sites client_data = Ok result
    ∧ Forall (fun mapping =>
                length (filter (fun mapped => mapped.(mapping_confidence) = high)
                               mapping.(map_fb_pages)) ≤ 1
                ∧ length (filter
                            (fun mapped => mapped.(mapping_confidence) ≠ low)
                            mapping.(map_fb_pages)) ≤ 3)
             result.(mapping_mappings).
Proof.
  intros Hall.
  assert (∀ pages total,
            Forall (fun page => (0 ≤ page.(extracted_ads_count))%Z) pages →
            (sum_by extracted_ads_count pages ≤ total)%Z →
            Forall (fun page => (0 ≤ page.(extracted_ads_count) ≤ total)%Z)
                   pages) as Hbound.
  { intros pages total Hnonneg. revert total.
    induction Hnonneg as [|p ps Hp Hps IH]; intros total Hsum; [constructor|].
    simpl in Hsum. pose proof (sum_by_nonneg extracted_ads_count ps Hps).
    constructor; [lia|]. apply IH. lia. }
  assert (∃ ms, Forall2 maps_site (data_sites client_data) ms) as [ms Hms].
  { induction Hall as [|site sites [Hnonneg Hsum] _ [ms IH]]; [by exists []|].
    destruct (proj2 (confidence_loop_returns
                (extract_pages_from_ads (collect_ads_for_domain site))
                (Z.of_nat (length (collect_ads_for_domain site)))))
      as [pages Hpages].
    { eapply Forall_impl; [exact (Hbound _ _ Hnonneg Hsum)|].
      intros page [Hp Hp']. simpl in Hp, Hp'.
      destruct (decide (length (collect_ads_for_domain site) = 0)) as [Hz|Hz].
      - rewrite Hz. by exists low.
      - rewrite calculate_confidence_cases by lia.
        pose proof overflow_from_large as Hbig.
        assert (2 * Z.of_nat (length (collect_ads_for_domain site))
                ≤ overflow_from
                  * Z.of_nat (length (collect_ads_for_domain site)))%Z.
        { apply Z.mul_le_mono_nonneg_r; [lia|]. etrans; [|exact Hbig]. done. }
        rewrite (proj2 (Z.leb_gt _ _)) by lia.
        destruct (_ <=? _)%Z; [by eexists|]. destruct (_ <? _)%Z; by eexists. }
    apply confidence_loop_spec in Hpages.
    exists ({| map_site := site;
               map_total_ads :=
                 Z.of_nat (length (collect_ads_for_domain site));
               map_fb_pages := pages |} :: ms).
    constructor; [|done]. by repeat split. }
  exists {| mapping_client_id := data_client_id client_data;
            mapping_total_sites := Z.of_nat (length (data_sites client_data));
            mapping_mappings := ms |}.
  split; [by apply map_client_sites_spec|]. simpl.
  clear -Hall Hms. induction Hms as [|site m sites ms Hm _ IH];
    [constructor|].
  apply Forall_cons in Hall as [[Hnonneg Hsum] Hall].
  constructor; [|by apply IH].
  destruct Hm as (_ & _ & Hpages).
  set (ads := collect_ads_for_domain site) in *.
  destruct (decide (length ads = 0)) as [Hzero|Hpos].
  - rewrite Hzero in Hpages. simpl in Hpages.
    assert (Forall (fun mapped => mapping_confidence mapped = low)
                   (map_fb_pages m)) as Hlow.
    { clear -Hpages.
      induction Hpages as [|p mp ps mps (_ & _ & _ & Hc) _ IH];
        constructor; [|done].
      by injection Hc. }
    assert (∀ (P : PageMapping → Prop) `{∀ x, Decision (P x)} l,
              Forall (fun x => ¬ P x) l → filter P l = []) as Hnone.
    { intros P ? l. induction 1 as [|x l Hx _ IH']; [done|].
      by rewrite filter_cons_False. }
    rewrite !Hnone; [simpl; lia| |];
      (eapply Forall_impl; [exact Hlow|]); intros mp Hmp; simpl;
      rewrite Hmp; [tauto | done].
  - destruct (mapped_pages_counts (extract_pages_from_ads ads) (map_fb_pages m)
                (Z.of_nat (length ads)) ltac:(lia) Hnonneg Hpages) as [Hh Hl].
    change (2 ^ 54)%Z with 18014398509481984%Z in *.
    change (2 ^ 55)%Z with 36028797018963968%Z in *.
    split; nia.
Qed.

End MapperMore.

(** ** The further properties at work, on the sample data *)
Section WorkedMore.
Import Sample.

Local Abbreviation tbshopp := ("tbshopp.com") (only parsing).

Lemma carousel_ad_destination :
  ∃ r, classify_ad carousel_ad tbshopp = Ok r
       ∧ (r.(destination_url) = None
          ↔ ["https://www.facebook.com/somepage";
             "https://Shop.example/TBSHOPP.com/page";
             "https://rivalshop.io/x"] = [])
       ∧ (∀ u, r.(destination_url) = Some u →
               u ∈ ["https://www.facebook.com/somepage";
                    "https://Shop.example/TBSHOPP.com/page";
                    "https://rivalshop.io/x"])
       ∧ (r.(confidence) = high ↔ r.(classification) ≠ UNKNOWN)
       ∧ (r.(confidence) = low
          ↔ ["https://www.facebook.com/somepage";
             "https://Shop.example/TBSHOPP.com/page";
             "https://rivalshop.io/x"] = []).
Proof.
  apply (classify_destination_among_urls carousel_ad tbshopp). reflexivity.
Defined.

Lemma rival_ad_destination :
  let r := {| classification := CONCURRENT; confidence := high;
              reason := reason_concurrent "rivalshop.io";
              destination_url := Some "https://www.RivalShop.io:8080/x";
              competitor_domain := Some "rivalshop.io" |} in
  (r.(classification) = CONVERTY →
   ∃ url, r.(destination_url) = Some url ∧ mentions tbshopp url = true)
  ∧ (r.(classification) = CONCURRENT →
     ∃ url host,
       r.(destination_url) = Some url
       ∧ r.(competitor_domain) = Some host
       ∧ _extract_domain url = Some host
       ∧ mentions tbshopp url = false
       ∧ _is_ignored_domain host = false).
Proof.
  apply (classification_explains_destination rival_ad tbshopp). reflexivity.
Defined.

Lemma owned_ad_with_empty_domain :
  classify_ad owned_ad EmptyString
  = Ok {| classification := CONVERTY; confidence := high;
          reason := reason_converty EmptyString;
          destination_url := Some "https://tbshopp.com/buy";
          competitor_domain := None |}.
Proof.
  apply (empty_owned_domain_claims_every_url owned_ad
           "https://tbshopp.com/buy" []).
  reflexivity.
Defined.

Lemma carousel_ad_other_spelling :
  let r1 := {| classification := CONVERTY; confidence := high;
               reason := reason_converty "TBShopp.COM";
               destination_url := Some "https://Shop.example/TBSHOPP.com/page";
               competitor_domain := None |} in
  ∃ r2, classify_ad carousel_ad tbshopp = Ok r2
        ∧ r1.(classification) = r2.(classification)
        ∧ r1.(confidence) = r2.(confidence)
        ∧ r1.(destination_url) = r2.(destination_url)
        ∧ r1.(competitor_domain) = r2.(competitor_domain).
Proof.
  apply (owned_domain_case_insensitive carousel_ad "TBShopp.COM" tbshopp);
    reflexivity.
Defined.

Lemma owned_ad_for_shorter_domain :
  ∃ r, classify_ad owned_ad "shopp.com" = Ok r ∧ r.(classification) = CONVERTY.
Proof.
  apply (self_for_every_substring_domain owned_ad "shopp.com" tbshopp
           {| classification := CONVERTY; confidence := high;
              reason := reason_converty tbshopp;
              destination_url := Some "https://tbshopp.com/buy";
              competitor_domain := None |});
    reflexivity.
Defined.

Lemma ad_without_snapshot_is_unknown :
  classify_ad (VDict [("ad_archive_id", VStr "1005")]) tbshopp
  = Ok unknown_no_url.
Proof.
  apply (ad_without_url_fields_is_unknown
           [("ad_archive_id", VStr "1005")] [] tbshopp);
    reflexivity.
Defined.

Lemma host_around_fb_me_is_ignored :
  _is_ignored_domain "Shop-FB.me.example.com" = true.
Proof.
  apply (ignored_by_substring "fb.me" "Shop-FB.me.example.com"); reflexivity.
Defined.

Lemma rival_host_shape :
  Py.nonempty "rivalshop.io" = true
  ∧ Py.lower "rivalshop.io" = "rivalshop.io"
  ∧ Py.contains ":" "rivalshop.io" = false.
Proof.
  apply (extracted_host_shape "https://www.RivalShop.io:8080/x"). reflexivity.
Defined.

Lemma wordy_ad_url_is_clean :
  Py.nonempty "http://c.com/x?y=1" = true
  ∧ starts_with Py.isspace "http://c.com/x?y=1" = false
  ∧ ends_with trailing_punctuation "http://c.com/x?y=1" = false
  ∧ ∃ c, c ∈ candidates wordy_ad ∧ trimmed c "http://c.com/x?y=1".
Proof.
  apply (extracted_urls_are_clean wordy_ad
           ["http://A.com/"; "http://a.com/"; "http://c.com/x?y=1";
            "https://d.com"]).
  - reflexivity.
  - do 2 right. left.
Defined.

Lemma sample_page_competitors :
  StronglySorted (fun a b => (b.(ads_count) ≤ a.(ads_count))%Z)
                 analysis.(competitors)
  ∧ (∀ c, c ∈ analysis.(competitors) →
          (1 ≤ c.(ads_count))%Z
          ∧ Py.nonempty c.(domain) = true
          ∧ Py.lower c.(domain) = c.(domain)
          ∧ Py.contains ":" c.(domain) = false
          ∧ _is_ignored_domain c.(domain) = false).
Proof.
  apply (page_competitors_ranked (H0:=client) page tbshopp analysis).
  reflexivity.
Defined.

Lemma sample_report_totals :
  let stats := Sample2.report.(global_stats) in
  Sample2.report.(pages_analyzed)
  = Z.of_nat (length (mapped_pages Sample2.mapping_data))
  ∧ stats.(stats_total_ads)
    = Z.of_nat (length (flat_map
                          (fun sp => get_all_ads_by_page_id
                                       (ApifyClient:=client)
                                       sp.2.(fb_page_id))
                          (mapped_pages Sample2.mapping_data)))
  ∧ stats.(stats_total_ads)
    = (stats.(stats_converty_ads) + stats.(stats_concurrent_ads)
       + stats.(stats_unknown_ads))%Z
  ∧ sum_by top_total_ads
           (_aggregate_competitors Sample2.report.(page_details))
    = stats.(stats_concurrent_ads)
  ∧ (sum_by top_total_ads Sample2.report.(top_competitors)
     ≤ stats.(stats_concurrent_ads))%Z.
Proof.
  apply (report_totals (H0:=client) Sample2.mapping_data
           "2026-01-01T00:00:00" Sample2.report).
  reflexivity.
Defined.

Lemma sample_page_aggregate :
  _aggregate_competitors [analysis] = map as_top analysis.(competitors).
Proof.
  apply (aggregate_of_single_page (H0:=client) page tbshopp analysis).
  reflexivity.
Defined.

Lemma two_pages_in_either_order :
  _aggregate_competitors two_pages ≡ₚ _aggregate_competitors (rev two_pages).
Proof.
  apply (aggregate_independent_of_page_order two_pages (rev two_pages)).
  apply Permutation_rev.
Defined.

Lemma sample_mapping_confident_pages :
  ∃ result,
    map_client_sites (H:=Sample2.collector) (H0:=Sample2.extractor)
      Sample2.client_data = Ok result
    ∧ Forall (fun mapping =>
                length (filter (fun mapped => mapped.(mapping_confidence) = high)
                               mapping.(map_fb_pages)) ≤ 1
                ∧ length (filter
                            (fun mapped => mapped.(mapping_confidence) ≠ low)
                            mapping.(map_fb_pages)) ≤ 3)
             result.(mapping_mappings).
Proof.
  apply (confident_pages_are_few (H:=Sample2.collector)
           (H0:=Sample2.extractor) Sample2.client_data).
  repeat constructor; simpl; lia.
Defined.

(** A body of free text is searched as it is. *)
Example plain_body_urls :
  _extract_urls_from_ad Sample2.plain_body_ad = Ok ["http://x.com/a"]
  ∧ extracts Sample2.plain_body_ad ["http://x.com/a"].
Proof. split; [reflexivity | by apply extracts_extractUrls]. Qed.

(** The sample mapping: eight of the ten ads of the shop come from the
    first page, which is of high confidence, two from the second, of low
    confidence; the site without ads has no page. *)
Example sample_mapping :
  map_client_sites (H:=Sample2.collector) (H0:=Sample2.extractor)
    Sample2.client_data
  = Ok {| mapping_client_id := "tbshopp";
          mapping_total_sites := 2;
          mapping_mappings :=
            [ {| map_site := "tbshopp.com"; map_total_ads := 10;
                 map_fb_pages :=
                   [ {| mapping_page_id := "page-1";
                        mapping_page_name := "Shop page";
                        mapping_ads_count := 8; mapping_confidence := high |};
                     {| mapping_page_id := "page-2";
                        mapping_page_name := "Other page";
                        mapping_ads_count := 2;
                        mapping_confidence := low |} ] |};
              {| map_site := "empty.example"; map_total_ads := 0;
                 map_fb_pages := [] |} ] |}.
Proof. by vm_compute. Qed.

(** The sample report: one page, five ads, the rival shop the only
    competitor. *)
Example sample_report :
  Sample2.report.(pages_analyzed) = 1%Z
  ∧ Sample2.report.(global_stats)
    = {| stats_total_ads := 5; stats_converty_ads := 2;
         stats_concurrent_ads := 2; stats_unknown_ads := 1 |}
  ∧ Sample2.report.(top_competitors)
    = [ {| top_domain := "rivalshop.io"; top_total_ads := 2 |} ].
Proof. repeat split; reflexivity. Qed.

End WorkedMore.
